(** * Baby-names pipeline ([main.py]): a shallow embedding and its properties

    The program loads two yearly CSV tables of first names with pandas,
    merges them, prints rankings and writes two CSV files.  The embedding
    follows the three functions of [main.py] ([load_csv_file],
    [process_top_names], [main]) and the pandas operations they call
    ([rename], [Series.map], [concat], [groupby(...).sum()], [nlargest]).

    What the file system and the CSV parser deliver is an input of the model
    (a [Source] per file name); what the program does with the parsed table
    is modelled in full. *)

From Stdlib Require Import List ZArith Lia Bool String.
From Stdlib Require Import Permutation Sorted OrdersEx RelationClasses.
Import ListNotations.

Local Open Scope string_scope.
Local Open Scope Z_scope.
Local Open Scope list_scope.

(** ** Cells and column types

    A cell of a parsed table is an integer, a text or a missing value (NaN).
    A column carries one of three pandas dtypes.  A [Float64] column arises
    from integers mixed with missing cells: its cells are integer-valued
    floats, kept in the model as the integer they denote (floats that are not
    integers, and integers beyond 2^53 held in a float column, are outside
    the model). *)

Inductive value : Type :=
| VInt (z : Z)
| VStr (s : string)
| VNaN.

Inductive dtype : Type := Int64 | Float64 | Object.

Definition value_eqb (a b : value) : bool :=
  match a, b with
  | VInt x, VInt y => Z.eqb x y
  | VStr s, VStr t => String.eqb s t
  | VNaN, VNaN => true
  | _, _ => false
  end.

Definition is_nan (v : value) : bool :=
  match v with VNaN => true | _ => false end.

(** Python's [==] on cells as pandas evaluates it in a comparison such as
    [df["Sexe"] == "F"]: a missing cell equals nothing. *)
Definition py_eq (a b : value) : bool :=
  match a, b with
  | VNaN, _ | _, VNaN => false
  | _, _ => value_eqb a b
  end.

(** Order of group keys: [groupby] sorts the distinct keys, numbers before
    texts, numbers by value and texts by code point (which is the byte order
    of their UTF-8 encoding). *)
Definition key_compare (a b : value) : comparison :=
  match a, b with
  | VInt x, VInt y => Z.compare x y
  | VInt _, _ => Lt
  | VStr _, VInt _ => Gt
  | VStr s, VStr t => String_as_OT.compare s t
  | VStr _, VNaN => Lt
  | VNaN, VNaN => Eq
  | VNaN, _ => Gt
  end.

(** int64 arithmetic: a sum is reduced to the signed 64-bit range. *)
Definition wrap64 (z : Z) : Z := (z + 2 ^ 63) mod 2 ^ 64 - 2 ^ 63.

(** ** Tables

    A table has a list of column labels, the dtype of each column, and its
    rows; a row has one cell per column.  Labels may repeat (renaming can
    make them). *)

Record DataFrame : Type := mkDF {
  columns : list string;
  dtypes : list dtype;
  rows : list (list value)
}.

Definition nrows (df : DataFrame) : nat := List.length (rows df).

(** Positions of a label among the columns. *)
Fixpoint positions_from (i : nat) (name : string) (cols : list string) : list nat :=
  match cols with
  | [] => []
  | c :: cs =>
      if String.eqb c name then i :: positions_from (S i) name cs
      else positions_from (S i) name cs
  end.

Definition positions (name : string) (cols : list string) : list nat :=
  positions_from 0 name cols.

(** [df[name]]: a missing label raises [KeyError]; a label that occurs once
    selects a column (a Series); a repeated label selects a table. *)
Inductive selection : Type :=
| Missing
| Unique (i : nat)
| Ambiguous.

Definition select (name : string) (cols : list string) : selection :=
  match positions name cols with
  | [] => Missing
  | [i] => Unique i
  | _ => Ambiguous
  end.

Definition cell (i : nat) (r : list value) : value := nth i r VNaN.

(** The cell of a row under a label that names one column; NaN when there
    is no such column. *)
Definition field (name : string) (cols : list string) (r : list value) : value :=
  match select name cols with
  | Unique i => cell i r
  | _ => VNaN
  end.

Definition column_cells (i : nat) (df : DataFrame) : list value :=
  map (cell i) (rows df).

Definition column_dtype (i : nat) (df : DataFrame) : dtype :=
  nth i (dtypes df) Object.

(** A Series: an index of labels with a value each, and the dtype of the
    values. *)
Record Series : Type := mkSeries {
  s_dtype : dtype;
  s_items : list (value * value)
}.

(** [pd.Series()] *)
Definition empty_series : Series := mkSeries Object [].

(** ** Exceptions, events and the effect monad

    Every exception below is a subclass of Python's [Exception].
    [sys.exit] raises [SystemExit], which is not: it passes through
    [except Exception] handlers and ends the process. *)

Inductive exn : Type :=
| FileNotFoundError (filename : string)
| PermissionError
| OSError (detail : string)
| UnicodeError (detail : string)
| EmptyDataError
| ParserError (detail : string)
| MissingColumns (cols : list string)      (* ValueError, line 70 *)
| KeyError (label : string)
| GrouperNotOneDimensional (label : string) (* ValueError of groupby *)
| ValueError (detail : string)
| TypeError (detail : string)
| InvalidIndexError.

(** Log records and printed lines are kept as structured messages: which
    statement emitted them and with which arguments.  By the configuration
    of lines 7-14 every log record is appended to the file
    [prenoms_processing.log] and written to the standard output. *)
Inductive message : Type :=
| RawFirstLine (line : string)
| FirstParseFailed (e : exn)
| SecondParseFailed (e : exn)
| FileIs (filename : string)
| TotalRows (n : nat)
| ColumnsFound (cols : list string)
| ColumnMissing (col : string)
| LoadedOk (filename : string)
| FileNotFoundMsg (e : exn)
| NoData (filename : string)
| ParseErrorMsg (filename : string) (e : exn)
| UnexpectedLoadError (filename : string) (e : exn)
| TopHeader (top_n : Z) (year : Z)
| TopNamesError (year : Z) (e : exn)
| ExportedMerged
| PermissionDeniedMerged
| ExportMergedError (e : exn)
| TopGirlsHeader
| TopBoysHeader
| GenderError (e : exn)
| ExportedGrouped
| PermissionDeniedGrouped
| ExportGroupedError (e : exn)
| MainUnexpected (e : exn).

(** One printed report line:
    [Prénom <label> n°<rank> = <name> - Occurrence = <occurrence>], where
    the label is a year, [Fille] or [Garçon]. *)
Inductive label : Type :=
| YearLabel (year : Z)
| GirlLabel
| BoyLabel.

Record report_line : Type := mkLine {
  line_label : label;
  line_rank : nat;
  line_name : value;
  line_occurrence : value
}.

Inductive Event : Type :=
| LogInfo (m : message)
| LogError (m : message)
| Print (l : report_line)
| WriteCsv (path : string) (sep : string) (table : DataFrame).

Inductive result (A : Type) : Type :=
| Ret (a : A)
| Raise (e : exn)
| Exit (code : Z).

Arguments Ret {A} a.
Arguments Raise {A} e.
Arguments Exit {A} code.

(** A computation yields a result and the events it emitted, in order. *)
Definition M (A : Type) : Type := (result A * list Event)%type.

Definition ret {A} (a : A) : M A := (Ret a, []).
Definition raise {A} (e : exn) : M A := (Raise e, []).
Definition sys_exit {A} (code : Z) : M A := (Exit code, []).
Definition emit (ev : Event) : M unit := (Ret tt, [ev]).

Definition bind {A B} (m : M A) (f : A -> M B) : M B :=
  match m with
  | (Ret a, t) => let (r, t') := f a in (r, t ++ t')
  | (Raise e, t) => (Raise e, t)
  | (Exit c, t) => (Exit c, t)
  end.

Notation "x <- m ;; k" := (bind m (fun x => k))
  (at level 61, m at next level, right associativity).
Notation "m ;;; k" := (bind m (fun _ => k))
  (at level 61, right associativity).

(** [try: m  except Exception as e: h e] *)
Definition try_except {A} (m : M A) (h : exn -> M A) : M A :=
  match m with
  | (Raise e, t) => let (r, t') := h e in (r, t ++ t')
  | other => other
  end.

Definition lift {A} (r : exn + A) : M A :=
  match r with
  | inl e => raise e
  | inr a => ret a
  end.

Definition logging_info (m : message) : M unit := emit (LogInfo m).
Definition logging_error (m : message) : M unit := emit (LogError m).

(** Exit status of the process that ran [m]: an exception that reaches the
    top of the interpreter ends it with status 1. *)
Definition exit_status {A} (m : M A) : Z :=
  match fst m with
  | Ret _ => 0
  | Raise _ => 1
  | Exit c => c
  end.

Definition trace {A} (m : M A) : list Event := snd m.

(** ** The environment

    What a file name leads to: whether the file exists, what opening it and
    reading its first line gives, and what each of the two parsing
    strategies returns. *)
Record Source : Type := mkSource {
  present : bool;
  first_line : exn + string;
  parsed_c : exn + DataFrame;
  parsed_python : exn + DataFrame
}.

Record Env : Type := mkEnv {
  file : string -> Source;
  (* the exception, if any, that writing this table to this path raises *)
  write_outcome : string -> DataFrame -> option exn;
  (* the exception, if any, that printing this line raises *)
  print_outcome : report_line -> option exn
}.

Definition print (env : Env) (l : report_line) : M unit :=
  match print_outcome env l with
  | Some e => raise e
  | None => emit (Print l)
  end.

(** [df.to_csv(path, sep=sep, encoding="utf-8", index=False)] *)
Definition to_csv (env : Env) (path sep : string) (df : DataFrame) : M unit :=
  match write_outcome env path df with
  | Some e => raise e
  | None => emit (WriteCsv path sep df)
  end.

(** ** The pandas operations the program calls *)

(** [df.rename(columns=mapping)]: every label that is a key of the mapping
    is replaced; the others stay, and so do the cells. *)
Fixpoint lookup_label (c : string) (mapping : list (string * string)) : option string :=
  match mapping with
  | [] => None
  | (k, v) :: rest => if String.eqb k c then Some v else lookup_label c rest
  end.

Definition rename_label (mapping : list (string * string)) (c : string) : string :=
  match lookup_label c mapping with
  | Some c' => c'
  | None => c
  end.

Definition rename (mapping : list (string * string)) (df : DataFrame) : DataFrame :=
  mkDF (map (rename_label mapping) (columns df)) (dtypes df) (rows df).

(** [series.map({1: 'M', 2: 'F'})] on one cell: a key of the dictionary
    gives its value, anything else gives NaN. *)
Definition sex_decode (v : value) : value :=
  match v with
  | VInt 1 => VStr "M"
  | VInt 2 => VStr "F"
  | _ => VNaN
  end.

Fixpoint update_nth {A} (i : nat) (f : A -> A) (l : list A) : list A :=
  match l, i with
  | [], _ => []
  | x :: l', O => f x :: l'
  | x :: l', S i' => x :: update_nth i' f l'
  end.

(** [df[label] = df[label].map(...)] for the column at position [i]; the
    mapped column has dtype object. *)
Definition map_column (i : nat) (f : value -> value) (df : DataFrame) : DataFrame :=
  mkDF (columns df)
       (update_nth i (fun _ => Object) (dtypes df))
       (map (update_nth i f) (rows df)).

(** [pd.concat([a, b], ignore_index=True)].  Tables with the same labels in
    the same order are stacked as they are.  Otherwise the columns are
    aligned by label: the result has the labels of [a] followed by those of
    [b] that [a] lacks, and a row has NaN where its table had no such
    column; this needs distinct labels in both tables. *)
Definition common_dtype (x y : dtype) : dtype :=
  match x, y with
  | Int64, Int64 => Int64
  | Object, _ | _, Object => Object
  | _, _ => Float64
  end.

Fixpoint zip_dtypes (xs ys : list dtype) : list dtype :=
  match xs, ys with
  | x :: xs', y :: ys' => common_dtype x y :: zip_dtypes xs' ys'
  | _, _ => []
  end.

Definition has_label (c : string) (cols : list string) : bool :=
  existsb (String.eqb c) cols.

Fixpoint distinct_labels (cols : list string) : bool :=
  match cols with
  | [] => true
  | c :: cs => negb (has_label c cs) && distinct_labels cs
  end.

Definition realign (target : list string) (cols : list string) (r : list value) : list value :=
  map (fun c => field c cols r) target.

(* a column absent from one table is filled with NaN there *)
Definition filled_dtype (d : dtype) : dtype :=
  match d with
  | Int64 => Float64
  | other => other
  end.

Definition aligned_dtype (a b : DataFrame) (c : string) : dtype :=
  match select c (columns a), select c (columns b) with
  | Unique i, Unique j => common_dtype (column_dtype i a) (column_dtype j b)
  | Unique i, _ => filled_dtype (column_dtype i a)
  | _, Unique j => filled_dtype (column_dtype j b)
  | _, _ => Object
  end.

Definition list_string_eqb (xs ys : list string) : bool :=
  if list_eq_dec string_dec xs ys then true else false.

Definition concat (a b : DataFrame) : exn + DataFrame :=
  if list_string_eqb (columns a) (columns b) then
    inr (mkDF (columns a) (zip_dtypes (dtypes a) (dtypes b)) (rows a ++ rows b))
  else if distinct_labels (columns a) && distinct_labels (columns b) then
    let target :=
      columns a ++ filter (fun c => negb (has_label c (columns a))) (columns b) in
    inr (mkDF target
              (map (aligned_dtype a b) target)
              (map (realign target (columns a)) (rows a)
               ++ map (realign target (columns b)) (rows b)))
  else inl InvalidIndexError.

(** [df[df[label] == v]]: the rows whose cell under [label] equals [v].
    With a repeated label the comparison gives a table of booleans, which
    cannot be laid over the table it came from; the program never gets
    there, see [merged_sexe_unique] below. *)
Definition select_rows_eq (label : string) (v : value) (df : DataFrame) : exn + DataFrame :=
  match select label (columns df) with
  | Missing => inl (KeyError label)
  | Unique i =>
      inr (mkDF (columns df) (dtypes df)
                (filter (fun r => py_eq (cell i r) v) (rows df)))
  | Ambiguous => inl (ValueError "cannot align a condition with repeated labels")
  end.

(** *** [groupby(key)[col].sum()] *)

(** The distinct keys, sorted; rows whose key is missing belong to no group
    ([dropna=True] is the default of [groupby]). *)
Fixpoint insert_key (k : value) (ks : list value) : list value :=
  match ks with
  | [] => [k]
  | k' :: ks' =>
      match key_compare k k' with
      | Eq => ks
      | Lt => k :: ks
      | Gt => k' :: insert_key k ks'
      end
  end.

Definition group_keys (keys : list value) : list value :=
  fold_right insert_key [] (filter (fun k => negb (is_nan k)) keys).

(** The cells of column [c] in the rows of group [k], in row order. *)
Definition group_cells (kp c : nat) (k : value) (rs : list (list value)) : list value :=
  map (cell c) (filter (fun r => value_eqb (cell kp r) k) rs).

Definition int_sum (cells : list value) : Z :=
  fold_right (fun v acc => match v with VInt z => z + acc | _ => acc end) 0 cells.

(** Python's [+] on the cells of an object column. *)
Definition py_add (a b : value) : exn + value :=
  match a, b with
  | VInt x, VInt y => inr (VInt (x + y))
  | VStr s, VStr t => inr (VStr (s ++ t)%string)
  | _, _ => inl (TypeError "unsupported operand type(s) for +")
  end.

Fixpoint object_sum_from (acc : value) (cells : list value) : exn + value :=
  match cells with
  | [] => inr acc
  | VNaN :: cs => object_sum_from acc cs
  | v :: cs =>
      match py_add acc v with
      | inl e => inl e
      | inr acc' => object_sum_from acc' cs
      end
  end.

Fixpoint object_sum (cells : list value) : exn + value :=
  match cells with
  | [] => inr (VInt 0)
  | VNaN :: cs => object_sum cs
  | v :: cs => object_sum_from v cs
  end.

(** The sum of one group, by dtype of the summed column.  Missing cells are
    skipped.  An int64 sum wraps around; a float64 sum of integer-valued
    cells is the integer sum (exact below 2^53, the range of the model); an
    object column is added up with Python's [+], in row order. *)
Definition sum_cells (d : dtype) (cells : list value) : exn + value :=
  match d with
  | Int64 => inr (VInt (wrap64 (int_sum cells)))
  | Float64 => inr (VInt (int_sum cells))
  | Object => object_sum cells
  end.

Fixpoint traverse {A B} (f : A -> exn + B) (l : list A) : exn + list B :=
  match l with
  | [] => inr []
  | x :: l' =>
      match f x with
      | inl e => inl e
      | inr y =>
          match traverse f l' with
          | inl e => inl e
          | inr ys => inr (y :: ys)
          end
      end
  end.

(** What [groupby(key)[col].sum()] returns: a Series indexed by the keys
    when [col] names one column, a table (one column of sums per column so
    named, shown here with the keys as its first column) when the label is
    repeated. *)
Inductive grouped : Type :=
| GSeries (index_dtype : dtype) (s : Series)
| GTable (t : DataFrame).

Definition groupby_sum (key col : string) (df : DataFrame) : exn + grouped :=
  match select key (columns df) with
  | Missing => inl (KeyError key)
  | Ambiguous => inl (GrouperNotOneDimensional key)
  | Unique kp =>
      let keys := group_keys (column_cells kp df) in
      match positions col (columns df) with
      | [] => inl (KeyError col)
      | [c] =>
          match traverse (fun k =>
                  match sum_cells (column_dtype c df) (group_cells kp c k (rows df)) with
                  | inl e => inl e
                  | inr v => inr (k, v)
                  end) keys with
          | inl e => inl e
          | inr items =>
              inr (GSeries (column_dtype kp df) (mkSeries (column_dtype c df) items))
          end
      | ps =>
          match traverse (fun k =>
                  match traverse (fun c =>
                          sum_cells (column_dtype c df) (group_cells kp c k (rows df))) ps with
                  | inl e => inl e
                  | inr vs => inr (k :: vs)
                  end) keys with
          | inl e => inl e
          | inr rs =>
              inr (GTable (mkDF (key :: map (fun _ => col) ps)
                                (column_dtype kp df :: map (fun c => column_dtype c df) ps)
                                rs))
          end
      end
  end.

(** [.reset_index()]: the keys become the first column. *)
Definition reset_index (key col : string) (g : grouped) : DataFrame :=
  match g with
  | GSeries key_dtype s =>
      mkDF [key; col] [key_dtype; s_dtype s]
           (map (fun kv => [fst kv; snd kv]) (s_items s))
  | GTable t => t
  end.

(** *** [nlargest(n)] *)

Definition num_of (v : value) : Z :=
  match v with VInt z => z | _ => 0 end.

(* [x] goes before the first item that is not greater *)
Fixpoint insert_desc (x : value * value) (l : list (value * value)) : list (value * value) :=
  match l with
  | [] => [x]
  | y :: l' =>
      if num_of (snd y) <=? num_of (snd x) then x :: l
      else y :: insert_desc x l'
  end.

(** Sorting by decreasing value; items of equal value keep their order
    (how pandas orders equal values is internal to it, and no statement
    below depends on it). *)
Definition sort_desc (l : list (value * value)) : list (value * value) :=
  fold_right insert_desc [] l.

(** [nlargest(n)] on the result of a grouped sum.  On a Series of numbers:
    missing values are dropped and the [n] largest are returned in
    decreasing order, none when [n <= 0].  On an object Series it raises
    [TypeError]; on a table it lacks its [columns] argument and raises
    [TypeError] too. *)
Definition nlargest (n : Z) (g : grouped) : exn + Series :=
  match g with
  | GTable _ => inl (TypeError "nlargest() missing 1 required positional argument: 'columns'")
  | GSeries _ s =>
      match s_dtype s with
      | Object => inl (TypeError "Cannot use method 'nlargest' with dtype object")
      | d =>
          inr (mkSeries d
                 (if n <=? 0 then []
                  else firstn (Z.to_nat n)
                         (sort_desc (filter (fun kv => negb (is_nan (snd kv))) (s_items s)))))
      end
  end.

Definition and_then {A B} (r : exn + A) (f : A -> exn + B) : exn + B :=
  match r with
  | inl e => inl e
  | inr a => f a
  end.

(** ** [load_csv_file] (lines 16-92) *)

(* lines 56-60 *)
Definition required_columns : list (string * string) :=
  [("sexe", "Sexe"); ("prenom", "Prenom"); ("nombre", "Nombre")].

(* lines 63-67: the loop over the required names *)
Fixpoint check_columns (required : list string) (cols : list string) : M (list string) :=
  match required with
  | [] => ret []
  | col :: rest =>
      if has_label col cols then check_columns rest cols
      else
        logging_error (ColumnMissing col) ;;;
        missing <- check_columns rest cols ;;
        ret (col :: missing)
  end.

(* lines 38-48: the strict parser, and on any failure the Python engine *)
Definition read_csv_strategies (src : Source) : M DataFrame :=
  try_except (lift (parsed_c src))
    (fun e =>
       logging_error (FirstParseFailed e) ;;;
       try_except (lift (parsed_python src))
         (fun e2 => logging_error (SecondParseFailed e2) ;;; raise e2)).

(* line 76.  Under a repeated label [df['Sexe']] is a table, and mapping a
   dictionary over a table raises. *)
Definition decode_sexe (df : DataFrame) : M DataFrame :=
  match select "Sexe" (columns df) with
  | Unique i => ret (map_column i sex_decode df)
  | Missing => raise (KeyError "Sexe")
  | Ambiguous => raise (TypeError "a table has no map over a dictionary")
  end.

(* lines 50-79: what is done with the parsed table *)
Definition validate_and_decode (filename : string) (df : DataFrame) : M DataFrame :=
  logging_info (FileIs filename) ;;;
  logging_info (TotalRows (nrows df)) ;;;
  logging_info (ColumnsFound (columns df)) ;;;
  missing_columns <- check_columns (map fst required_columns) (columns df) ;;
  (match missing_columns with
   | [] => ret tt
   | _ => raise (MissingColumns missing_columns)
   end) ;;;
  df <- decode_sexe (rename required_columns df) ;;
  logging_info (LoadedOk filename) ;;;
  ret df.

(* lines 29-79: the body of the [try] *)
Definition load_body (env : Env) (filename : string) : M DataFrame :=
  let src := file env filename in
  (if present src then ret tt else raise (FileNotFoundError filename)) ;;;
  line <- lift (first_line src) ;;
  logging_info (RawFirstLine line) ;;;
  df <- read_csv_strategies src ;;
  validate_and_decode filename df.

(* lines 81-92: the four handlers, tried in this order *)
Definition load_handler (filename : string) (e : exn) : M DataFrame :=
  match e with
  | FileNotFoundError _ => logging_error (FileNotFoundMsg e) ;;; sys_exit 1
  | EmptyDataError => logging_error (NoData filename) ;;; sys_exit 1
  | ParserError _ => logging_error (ParseErrorMsg filename e) ;;; sys_exit 1
  | _ => logging_error (UnexpectedLoadError filename e) ;;; sys_exit 1
  end.

Definition load_csv_file (env : Env) (filename : string) : M DataFrame :=
  try_except (load_body env filename) (load_handler filename).

(** ** [process_top_names] (lines 94-113) *)

(* the [for] loops over [enumerate(series.items(), 1)] *)
Fixpoint print_ranking (env : Env) (lbl : label) (i : nat)
         (items : list (value * value)) : M unit :=
  match items with
  | [] => ret tt
  | (prenom, occurrence) :: rest =>
      print env (mkLine lbl i prenom occurrence) ;;;
      print_ranking env lbl (S i) rest
  end.

(* line 104 *)
Definition top_names_of (df : DataFrame) (top_n : Z) : exn + Series :=
  and_then (groupby_sum "Prenom" "Nombre" df) (nlargest top_n).

(* lines 104-110: the body of the [try] *)
Definition top_names_body (env : Env) (df : DataFrame) (year : Z) (top_n : Z) : M Series :=
  top_names <- lift (top_names_of df top_n) ;;
  logging_info (TopHeader top_n year) ;;;
  print_ranking env (YearLabel year) 1 (s_items top_names) ;;;
  ret top_names.

Definition process_top_names (env : Env) (df : DataFrame) (year : Z) (top_n : Z) : M Series :=
  try_except (top_names_body env df year top_n)
    (fun e => logging_error (TopNamesError year e) ;;; ret empty_series).

(** ** [main] (lines 115-165) *)

(* lines 125-131 *)
Definition export_merged (env : Env) (merged : DataFrame) : M unit :=
  try_except
    (to_csv env "Prenoms2003-2004.csv" ";" merged ;;;
     logging_info ExportedMerged)
    (fun e => match e with
              | PermissionError => logging_error PermissionDeniedMerged
              | _ => logging_error (ExportMergedError e)
              end).

(* lines 138-151 *)
Definition top_by_sex (sexe : string) (merged : DataFrame) : exn + Series :=
  and_then (and_then (select_rows_eq "Sexe" (VStr sexe) merged)
                     (groupby_sum "Prenom" "Nombre"))
           (nlargest 10).

Definition report_by_gender (env : Env) (merged : DataFrame) : M unit :=
  try_except
    (filles <- lift (top_by_sex "F" merged) ;;
     garcons <- lift (top_by_sex "M" merged) ;;
     logging_info TopGirlsHeader ;;;
     print_ranking env GirlLabel 1 (s_items filles) ;;;
     logging_info TopBoysHeader ;;;
     print_ranking env BoyLabel 1 (s_items garcons))
    (fun e => logging_error (GenderError e)).

(* lines 154-161 *)
Definition export_grouped (env : Env) (merged : DataFrame) : M unit :=
  try_except
    (g <- lift (groupby_sum "Prenom" "Nombre" merged) ;;
     to_csv env "Prenoms2003-2004_Jointure.csv" ";" (reset_index "Prenom" "Nombre" g) ;;;
     logging_info ExportedGrouped)
    (fun e => match e with
              | PermissionError => logging_error PermissionDeniedGrouped
              | _ => logging_error (ExportGroupedError e)
              end).

(* lines 133-161: the reports and the second export *)
Definition reports_and_grouped_export (env : Env)
           (prenoms2003 prenoms2004 merged : DataFrame) : M unit :=
  process_top_names env prenoms2003 2003 10 ;;;
  process_top_names env prenoms2004 2004 10 ;;;
  report_by_gender env merged ;;;
  export_grouped env merged.

(* lines 124-161: everything after the merge *)
Definition after_merge (env : Env) (prenoms2003 prenoms2004 merged : DataFrame) : M unit :=
  export_merged env merged ;;;
  reports_and_grouped_export env prenoms2003 prenoms2004 merged.

Definition main (env : Env) : M unit :=
  try_except
    (prenoms2003 <- load_csv_file env "Prenoms2003.csv" ;;
     prenoms2004 <- load_csv_file env "Prenoms2004.csv" ;;
     merged <- lift (concat prenoms2003 prenoms2004) ;;
     after_merge env prenoms2003 prenoms2004 merged)
    (fun e => logging_error (MainUnexpected e) ;;; sys_exit 1).

(** ** Vocabulary of the specification *)

(** The (Sex, Name, Count) triple of a row, and the record sequence of a
    dataset. *)
Definition record_of (cols : list string) (r : list value) : value * value * value :=
  (field "Sexe" cols r, field "Prenom" cols r, field "Nombre" cols r).

Definition records (d : DataFrame) : list (value * value * value) :=
  map (record_of (columns d)) (rows d).

(** The required source names that a header lacks, in the order of the
    dictionary of line 56. *)
Definition missing_of (cols : list string) : list string :=
  filter (fun c => negb (has_label c cols)) (map fst required_columns).

(** A table is the parse of a source when the strict parser returns it, or
    fails and the Python engine returns it. *)
Definition parses_to (src : Source) (t : DataFrame) : Prop :=
  parsed_c src = inr t \/
  exists e, parsed_c src = inl e /\ parsed_python src = inr t.

(** The invariant the specification states for a loaded dataset (§3). *)
Definition names_present (d : DataFrame) : Prop :=
  forall r, In r (rows d) -> field "Prenom" (columns d) r <> VNaN.

Definition counts_non_negative (d : DataFrame) : Prop :=
  forall r, In r (rows d) ->
            exists z, field "Nombre" (columns d) r = VInt z /\ 0 <= z.

Definition columns_exactly_canonical (d : DataFrame) : Prop :=
  forall c, In c (columns d) <-> In c ["Sexe"; "Prenom"; "Nombre"].

(** The round trip the specification states (§8): loading the file at
    [path] gives back the records of [d], in some order. *)
Definition round_trip (env : Env) (path : string) (d : DataFrame) : Prop :=
  exists d', fst (load_csv_file env path) = Ret d' /\
             Permutation (records d') (records d).

(** ** The scenario of the specification (§8)

    Year A holds (1, Jean, 5) and (2, Marie, 7); year B holds (1, Jean, 3). *)
Definition source_header : list string := ["sexe"; "prenom"; "nombre"].

Definition table_a : DataFrame :=
  mkDF source_header [Int64; Object; Int64]
       [[VInt 1; VStr "Jean"; VInt 5]; [VInt 2; VStr "Marie"; VInt 7]].

Definition table_b : DataFrame :=
  mkDF source_header [Int64; Object; Int64]
       [[VInt 1; VStr "Jean"; VInt 3]].

(* a file that is there, with this first line, and parses to this table *)
Definition readable (line : string) (t : DataFrame) : Source :=
  mkSource true (inr line) (inr t) (inr t).

Definition healthy_writes : string -> DataFrame -> option exn := fun _ _ => None.
Definition healthy_prints : report_line -> option exn := fun _ => None.

Definition two_files (a b : DataFrame) : string -> Source :=
  fun f => if String.eqb f "Prenoms2003.csv"
           then readable "sexe,prenom,nombre" a
           else readable "sexe,prenom,nombre" b.

Definition scenario : Env :=
  mkEnv (two_files table_a table_b) healthy_writes healthy_prints.

Definition dataset_a : DataFrame :=
  mkDF ["Sexe"; "Prenom"; "Nombre"] [Object; Object; Int64]
       [[VStr "M"; VStr "Jean"; VInt 5]; [VStr "F"; VStr "Marie"; VInt 7]].

Definition dataset_b : DataFrame :=
  mkDF ["Sexe"; "Prenom"; "Nombre"] [Object; Object; Int64]
       [[VStr "M"; VStr "Jean"; VInt 3]].

Definition merged_ab : DataFrame :=
  mkDF ["Sexe"; "Prenom"; "Nombre"] [Object; Object; Int64]
       [[VStr "M"; VStr "Jean"; VInt 5]; [VStr "F"; VStr "Marie"; VInt 7];
        [VStr "M"; VStr "Jean"; VInt 3]].

Definition one_file (line : string) (t : DataFrame) : Env :=
  mkEnv (fun _ => readable line t) healthy_writes healthy_prints.

(** A file with neither [prenom] nor [nombre]. *)
Definition table_sexe_only : DataFrame :=
  mkDF ["sexe"; "annee"] [Int64; Int64] [[VInt 1; VInt 2003]].

(** A file with a fourth column, a row without a name and with sex code 3,
    and a negative count. *)
Definition table_unchecked : DataFrame :=
  mkDF ["sexe"; "prenom"; "nombre"; "annee"] [Int64; Object; Int64; Int64]
       [[VInt 3; VNaN; VInt (-4); VInt 2003];
        [VInt 2; VStr "Marie"; VInt 7; VInt 2003]].

Definition dataset_unchecked : DataFrame :=
  mkDF ["Sexe"; "Prenom"; "Nombre"; "annee"] [Object; Object; Int64; Int64]
       [[VNaN; VNaN; VInt (-4); VInt 2003];
        [VStr "F"; VStr "Marie"; VInt 7; VInt 2003]].

(** The merged file of the scenario, read back with its header and cells
    as they were written. *)
Definition reload_merged : Env :=
  one_file "Sexe;Prenom;Nombre" merged_ab.

(** The datasets the pipeline holds: those the loader returned and their
    merge. *)
Inductive pipeline_dataset (env : Env) : DataFrame -> Prop :=
| loaded_dataset (filename : string) (d : DataFrame) :
    fst (load_csv_file env filename) = Ret d -> pipeline_dataset env d
| merged_dataset (a b m : DataFrame) :
    pipeline_dataset env a -> pipeline_dataset env b ->
    concat a b = inr m -> pipeline_dataset env m.

(** A file with a row that has no name. *)
Definition table_nameless : DataFrame :=
  mkDF source_header [Int64; Object; Int64]
       [[VInt 1; VNaN; VInt 5]; [VInt 2; VStr "Marie"; VInt 7]].

Definition dataset_nameless : DataFrame :=
  mkDF ["Sexe"; "Prenom"; "Nombre"] [Object; Object; Int64]
       [[VStr "M"; VNaN; VInt 5]; [VStr "F"; VStr "Marie"; VInt 7]].

(** The merged dataset of the scenario with its rows in another order. *)
Definition merged_ab_shuffled : DataFrame :=
  mkDF ["Sexe"; "Prenom"; "Nombre"] [Object; Object; Int64]
       [[VStr "M"; VStr "Jean"; VInt 3]; [VStr "F"; VStr "Marie"; VInt 7];
        [VStr "M"; VStr "Jean"; VInt 5]].



(** Entries in decreasing order of their total. *)
Definition descending (items : list (value * value)) : Prop :=
  StronglySorted (fun x y => num_of (snd x) >= num_of (snd y)) items.

(** A computation that does not end the process. *)
Definition never_exits {A} (m : M A) : Prop := forall c, fst m <> Exit c.

(** A file with a header and no row: every column is of dtype object. *)
Definition table_header_only : DataFrame :=
  mkDF source_header [Object; Object; Object] [].

Definition dataset_empty : DataFrame :=
  mkDF ["Sexe"; "Prenom"; "Nombre"] [Object; Object; Object] [].

(** What the handlers of lines 128-131 and 158-161 log for an exception. *)
Definition merged_export_message (e : exn) : message :=
  match e with
  | PermissionError => PermissionDeniedMerged
  | _ => ExportMergedError e
  end.

Definition grouped_export_message (e : exn) : message :=
  match e with
  | PermissionError => PermissionDeniedGrouped
  | _ => ExportGroupedError e
  end.

(** The scenario in a directory that cannot be written to. *)
Definition read_only_scenario : Env :=
  mkEnv (two_files table_a table_b) (fun _ _ => Some PermissionError) healthy_prints.

(** The order of group keys as a relation. *)
Definition key_lt (a b : value) : Prop := key_compare a b = Lt.


(** The sum of the totals of the groups of [ks]. *)
Definition groups_total (kp c : nat) (rs : list (list value)) (ks : list value) : Z :=
  fold_right (fun k acc => int_sum (group_cells kp c k rs) + acc) 0 ks.


(** The sum of a group of a numeric column. *)
Definition numeric_sum (d : dtype) (cells : list value) : Z :=
  match d with
  | Int64 => wrap64 (int_sum cells)
  | _ => int_sum cells
  end.


(** ** Vocabulary for the traces *)

(** A log record, as opposed to a printed line or a file written. *)
Definition is_log (ev : Event) : bool :=
  match ev with
  | LogInfo _ | LogError _ => true
  | _ => false
  end.

(** The CSV files exported in a trace (the [to_csv] calls), in order: path
    and separator.  The log file is not among them, see [paths_written]. *)
Definition written_files (t : list Event) : list (string * string) :=
  flat_map (fun ev => match ev with
                      | WriteCsv path sep _ => [(path, sep)]
                      | _ => []
                      end) t.

(* line 11 *)
Definition log_file : string := "prenoms_processing.log".

(** Every path a trace writes to, in order: the log file for each log
    record, and the path of each CSV export. *)
Definition paths_written (t : list Event) : list string :=
  flat_map (fun ev => match ev with
                      | LogInfo _ | LogError _ => [log_file]
                      | WriteCsv path _ _ => [path]
                      | Print _ => []
                      end) t.

(** The lines printed in a trace, in order. *)
Definition printed_lines (t : list Event) : list report_line :=
  flat_map (fun ev => match ev with
                      | Print l => [l]
                      | _ => []
                      end) t.

(** Every event of a computation satisfies [P]. *)
Definition emits {A} (P : Event -> Prop) (m : M A) : Prop := Forall P (snd m).

(** What the handlers of lines 81-92 log for an exception. *)
Definition load_error_message (filename : string) (e : exn) : message :=
  match e with
  | FileNotFoundError _ => FileNotFoundMsg e
  | EmptyDataError => NoData filename
  | ParserError _ => ParseErrorMsg filename e
  | _ => UnexpectedLoadError filename e
  end.

(** A file on which the strict parser fails with [e] and the Python engine
    returns [t]; a file on which both fail; a file that is not there. *)
Definition strict_fails (line : string) (e : exn) (t : DataFrame) : Source :=
  mkSource true (inr line) (inl e) (inr t).

Definition unparsable (line : string) (e1 e2 : exn) : Source :=
  mkSource true (inr line) (inl e1) (inl e2).

Definition absent : Source :=
  mkSource false (inl (FileNotFoundError "")) (inl EmptyDataError) (inl EmptyDataError).

Definition one_source (src : Source) : Env :=
  mkEnv (fun _ => src) healthy_writes healthy_prints.

(** The two files of the scenario, none of which is there. *)
Definition nothing_there : Env := one_source absent.

Definition is_write (ev : Event) : bool :=
  match ev with
  | WriteCsv _ _ _ => true
  | _ => false
  end.

(** What the first and the second export of [main] write, if anything. *)
Definition merged_write (env : Env) (m : DataFrame) : list Event :=
  match write_outcome env "Prenoms2003-2004.csv" m with
  | None => [WriteCsv "Prenoms2003-2004.csv" ";" m]
  | Some _ => []
  end.

Definition grouped_write (env : Env) (m : DataFrame) : list Event :=
  match groupby_sum "Prenom" "Nombre" m with
  | inl _ => []
  | inr g =>
      match write_outcome env "Prenoms2003-2004_Jointure.csv"
                          (reset_index "Prenom" "Nombre" g) with
      | None => [WriteCsv "Prenoms2003-2004_Jointure.csv" ";"
                          (reset_index "Prenom" "Nombre" g)]
      | Some _ => []
      end
  end.

(** The lines the loops of lines 107, 143 and 147 ask to print for a
    ranking: one per entry, numbered from [i]. *)
Fixpoint report_lines (lbl : label) (i : nat) (items : list (value * value))
  : list report_line :=
  match items with
  | [] => []
  | (prenom, occurrence) :: rest =>
      mkLine lbl i prenom occurrence :: report_lines lbl (S i) rest
  end.

(** A console that takes the first line of a report and fails on the
    second. *)
Definition console_closing : report_line -> option exn :=
  fun l => if Nat.eqb (line_rank l) 2 then Some (OSError "broken pipe") else None.

Definition scenario_console_closing : Env :=
  mkEnv (two_files table_a table_b) healthy_writes console_closing.

(** The first year with its counts read as text, so that the column is of
    dtype object. *)
Definition dataset_text_counts : DataFrame :=
  mkDF ["Sexe"; "Prenom"; "Nombre"] [Object; Object; Object]
       [[VStr "M"; VStr "Jean"; VStr "cinq"]; [VStr "F"; VStr "Marie"; VStr "7"]].


(** A file with two rows for one name and counts that are not numbers, the
    dataset it loads to, and that dataset with its two rows exchanged. *)
Definition table_text_pair : DataFrame :=
  mkDF source_header [Int64; Object; Object]
       [[VInt 1; VStr "Jean"; VStr "a"]; [VInt 1; VStr "Jean"; VStr "b"]].

Definition dataset_text_pair : DataFrame :=
  mkDF ["Sexe"; "Prenom"; "Nombre"] [Object; Object; Object]
       [[VStr "M"; VStr "Jean"; VStr "a"]; [VStr "M"; VStr "Jean"; VStr "b"]].

Definition dataset_text_pair_swapped : DataFrame :=
  mkDF ["Sexe"; "Prenom"; "Nombre"] [Object; Object; Object]
       [[VStr "M"; VStr "Jean"; VStr "b"]; [VStr "M"; VStr "Jean"; VStr "a"]].

(** ** What the steps after the merge are to emit

    Read off lines 103-113, 138-151 and 154-161, step by step, without the
    functions that model them. *)

(** Lines sent to [print] one after the other: the lines printed before the
    first failure, and that failure if there is one. *)
Fixpoint print_until_failure (env : Env) (lines : list report_line)
  : list Event * option exn :=
  match lines with
  | [] => ([], None)
  | l :: rest =>
      match print_outcome env l with
      | Some e => ([], Some e)
      | None =>
          let (evs, failure) := print_until_failure env rest in
          (Print l :: evs, failure)
      end
  end.

(** A yearly report: the error of line 104 if it raises; otherwise the
    header and the ranked lines, up to the first line that cannot be
    printed, whose error is then logged. *)
Definition yearly_report_events (env : Env) (year : Z) (df : DataFrame) : list Event :=
  match top_names_of df 10 with
  | inl e => [LogError (TopNamesError year e)]
  | inr s =>
      let (evs, failure) :=
        print_until_failure env (report_lines (YearLabel year) 1 (s_items s)) in
      LogInfo (TopHeader 10 year) :: evs
        ++ match failure with
           | Some e => [LogError (TopNamesError year e)]
           | None => []
           end
  end.

(** The report by sex: the error of the first ranking that raises, if one
    does; otherwise the girls' header and lines, then the boys' header and
    lines, up to the first line that cannot be printed. *)
Definition gender_report_events (env : Env) (m : DataFrame) : list Event :=
  match top_by_sex "F" m with
  | inl e => [LogError (GenderError e)]
  | inr filles =>
      match top_by_sex "M" m with
      | inl e => [LogError (GenderError e)]
      | inr garcons =>
          let (evs_f, failure_f) :=
            print_until_failure env (report_lines GirlLabel 1 (s_items filles)) in
          LogInfo TopGirlsHeader :: evs_f
            ++ match failure_f with
               | Some e => [LogError (GenderError e)]
               | None =>
                   let (evs_g, failure_g) :=
                     print_until_failure env
                       (report_lines BoyLabel 1 (s_items garcons)) in
                   LogInfo TopBoysHeader :: evs_g
                     ++ match failure_g with
                        | Some e => [LogError (GenderError e)]
                        | None => []
                        end
               end
      end
  end.

(** The export of the grouped sums: the error of the grouped sum or of the
    write if one raises; otherwise the file written, names first, and the
    success record. *)
Definition grouped_export_events (env : Env) (m : DataFrame) : list Event :=
  match groupby_sum "Prenom" "Nombre" m with
  | inl e => [LogError (grouped_export_message e)]
  | inr g =>
      match write_outcome env "Prenoms2003-2004_Jointure.csv"
                          (reset_index "Prenom" "Nombre" g) with
      | Some e => [LogError (grouped_export_message e)]
      | None =>
          [WriteCsv "Prenoms2003-2004_Jointure.csv" ";"
                    (reset_index "Prenom" "Nombre" g);
           LogInfo ExportedGrouped]
      end
  end.

(** * Properties *)

#[local] Arguments String.eqb : simpl never.

(** ** Reasoning about computations *)

Lemma bind_ret {A B} (a : A) (t : list Event) (f : A -> M B) :
  bind (Ret a, t) f = (fst (f a), t ++ snd (f a)).
Proof. unfold bind. destruct (f a); reflexivity. Qed.

Lemma bind_ret_inv {A B} (m : M A) (f : A -> M B) (b : B) :
  fst (bind m f) = Ret b ->
  exists a, fst m = Ret a /\ fst (f a) = Ret b /\ snd (bind m f) = snd m ++ snd (f a).
Proof.
  destruct m as [[a | e | c] t]; simpl; try discriminate.
  destruct (f a) as [r t'] eqn:Hf; simpl. intros ->.
  exists a. rewrite Hf. auto.
Qed.

Lemma try_except_ret_inv {A} (m : M A) (h : exn -> M A) (a : A) :
  fst (try_except m h) = Ret a ->
  fst m = Ret a \/ exists e, fst m = Raise e /\ fst (h e) = Ret a.
Proof.
  destruct m as [[x | e | c] t]; simpl; auto; try discriminate.
  destruct (h e) as [r t'] eqn:Hh; simpl. intros ->.
  right. exists e. rewrite Hh. auto.
Qed.

(** ** The loader *)

Lemma check_columns_eq (required cols : list string) :
  check_columns required cols =
  (Ret (filter (fun c => negb (has_label c cols)) required),
   map (fun c => LogError (ColumnMissing c))
       (filter (fun c => negb (has_label c cols)) required)).
Proof.
  induction required as [| c rest IH]; simpl; [reflexivity |].
  destruct (has_label c cols); simpl; [exact IH |].
  rewrite IH. cbn. rewrite app_nil_r. reflexivity.
Qed.

Lemma read_csv_strategies_ret (src : Source) (t : DataFrame) :
  fst (read_csv_strategies src) = Ret t <-> parses_to src t.
Proof.
  unfold read_csv_strategies, parses_to.
  destruct (parsed_c src) as [e | t1]; simpl.
  - destruct (parsed_python src) as [e2 | t2]; simpl; split.
    + discriminate.
    + intros [H | [e' [_ H]]]; discriminate.
    + intros [= ->]. right. eauto.
    + intros [H | [e' [_ H]]]; [discriminate | congruence].
  - split.
    + intros [= ->]. auto.
    + intros [H | [e' [H _]]]; [congruence | discriminate].
Qed.

Lemma validate_and_decode_missing (filename : string) (t : DataFrame) :
  missing_of (columns t) <> [] ->
  validate_and_decode filename t =
  (Raise (MissingColumns (missing_of (columns t))),
   [LogInfo (FileIs filename); LogInfo (TotalRows (nrows t));
    LogInfo (ColumnsFound (columns t))]
   ++ map (fun c => LogError (ColumnMissing c)) (missing_of (columns t))).
Proof.
  intros Hm. unfold validate_and_decode.
  rewrite check_columns_eq. fold (missing_of (columns t)).
  destruct (missing_of (columns t)) as [| c l] eqn:E; [congruence |].
  simpl. rewrite app_nil_r. reflexivity.
Qed.

Lemma validate_and_decode_ok (filename : string) (t : DataFrame) (i : nat) :
  missing_of (columns t) = [] ->
  select "Sexe" (columns (rename required_columns t)) = Unique i ->
  validate_and_decode filename t =
  (Ret (map_column i sex_decode (rename required_columns t)),
   [LogInfo (FileIs filename); LogInfo (TotalRows (nrows t));
    LogInfo (ColumnsFound (columns t)); LogInfo (LoadedOk filename)]).
Proof.
  intros Hm Hs. unfold validate_and_decode, decode_sexe.
  rewrite check_columns_eq. fold (missing_of (columns t)).
  rewrite Hm, Hs. reflexivity.
Qed.

Lemma validate_and_decode_inv (filename : string) (t d : DataFrame) :
  fst (validate_and_decode filename t) = Ret d ->
  missing_of (columns t) = [] /\
  exists i, select "Sexe" (columns (rename required_columns t)) = Unique i /\
            d = map_column i sex_decode (rename required_columns t).
Proof.
  intros H.
  destruct (missing_of (columns t)) as [| c l] eqn:E.
  - split; [reflexivity |].
    unfold validate_and_decode, decode_sexe in H.
    rewrite check_columns_eq in H. fold (missing_of (columns t)) in H.
    rewrite E in H.
    destruct (select "Sexe" (columns (rename required_columns t))) as [| i |] eqn:Hs;
      simpl in H; try discriminate.
    exists i. split; [reflexivity | congruence].
  - rewrite validate_and_decode_missing in H by congruence. discriminate.
Qed.

Lemma has_label_In (c : string) (cols : list string) :
  has_label c cols = true <-> In c cols.
Proof.
  unfold has_label. rewrite existsb_exists. split.
  - intros [x [Hin Heq]]. apply String.eqb_eq in Heq. now subst.
  - intros Hin. exists c. split; [assumption | apply String.eqb_refl].
Qed.

Lemma missing_of_In (cols : list string) (c : string) :
  In c (missing_of cols) <->
  In c ["sexe"; "prenom"; "nombre"] /\ ~ In c cols.
Proof.
  unfold missing_of. rewrite filter_In. simpl map.
  rewrite negb_true_iff, <- not_true_iff_false, has_label_In. tauto.
Qed.

Lemma missing_of_nil (cols : list string) :
  missing_of cols = [] <->
  has_label "sexe" cols = true /\ has_label "prenom" cols = true /\
  has_label "nombre" cols = true.
Proof.
  unfold missing_of. simpl.
  destruct (has_label "sexe" cols), (has_label "prenom" cols),
    (has_label "nombre" cols); simpl; split; intros H;
    try discriminate; try reflexivity; auto; destruct H as [? [? ?]]; discriminate.
Qed.

Lemma load_handler_exit (filename : string) (e : exn) :
  fst (load_handler filename e) = Exit 1.
Proof. destruct e; reflexivity. Qed.

Lemma read_csv_strategies_parses (src : Source) (t : DataFrame) :
  parses_to src t -> exists tr, read_csv_strategies src = (Ret t, tr).
Proof.
  unfold parses_to, read_csv_strategies.
  intros [H | [e [H1 H2]]].
  - rewrite H. simpl. exists []. reflexivity.
  - rewrite H1, H2. simpl. eexists. reflexivity.
Qed.

(** A load that returns went through the checks of lines 62-70 and the
    transformation of lines 73-76. *)
Lemma load_csv_file_inv (env : Env) (filename : string) (d : DataFrame) :
  fst (load_csv_file env filename) = Ret d ->
  exists t, parses_to (file env filename) t /\
            fst (validate_and_decode filename t) = Ret d.
Proof.
  intros H. unfold load_csv_file in H.
  apply try_except_ret_inv in H.
  destruct H as [H | [e [_ H]]].
  - unfold load_body in H.
    apply bind_ret_inv in H. destruct H as [[] [_ [H _]]].
    apply bind_ret_inv in H. destruct H as [line [_ [H _]]].
    apply bind_ret_inv in H. destruct H as [[] [_ [H _]]].
    apply bind_ret_inv in H. destruct H as [t [Hp [H _]]].
    exists t. split; [| exact H].
    now apply read_csv_strategies_ret.
  - rewrite load_handler_exit in H. discriminate.
Qed.

(** What a load does when the file is there and parses. *)
Lemma load_csv_file_parsed (env : Env) (filename line : string) (t : DataFrame) :
  present (file env filename) = true ->
  first_line (file env filename) = inr line ->
  parses_to (file env filename) t ->
  exists tr,
    load_body env filename =
    (fst (validate_and_decode filename t),
     tr ++ snd (validate_and_decode filename t)).
Proof.
  intros Hp Hl Ht. unfold load_body.
  apply read_csv_strategies_parses in Ht. destruct Ht as [tr Ht].
  rewrite Hp, Hl, Ht. simpl.
  destruct (validate_and_decode filename t) as [r tv]. simpl.
  exists (LogInfo (RawFirstLine line) :: tr). reflexivity.
Qed.

(** The renaming of line 73 on one label. *)
Lemma rename_label_cases (c : string) :
  (c = "sexe" /\ rename_label required_columns c = "Sexe") \/
  (c = "prenom" /\ rename_label required_columns c = "Prenom") \/
  (c = "nombre" /\ rename_label required_columns c = "Nombre") \/
  (c <> "sexe" /\ c <> "prenom" /\ c <> "nombre" /\
   rename_label required_columns c = c).
Proof.
  unfold rename_label, required_columns, lookup_label.
  destruct (String.eqb_spec "sexe" c) as [<- | H1]; [auto |].
  destruct (String.eqb_spec "prenom" c) as [<- | H2]; [auto |].
  destruct (String.eqb_spec "nombre" c) as [<- | H3]; [auto 6 |].
  right; right; right. repeat split; congruence.
Qed.

Lemma positions_from_nil_iff (n : nat) (name : string) (cols : list string) :
  positions_from n name cols = [] <-> has_label name cols = false.
Proof.
  revert n. induction cols as [| c cs IH]; intros n; simpl; [tauto |].
  rewrite (String.eqb_sym name c).
  destruct (String.eqb c name); simpl; [split; discriminate | apply IH].
Qed.

Lemma renamed_has_label (source canonical : string) (cols : list string) :
  In (source, canonical) required_columns ->
  has_label source cols = true ->
  has_label canonical (map (rename_label required_columns) cols) = true.
Proof.
  intros Hin H. apply has_label_In. apply has_label_In in H.
  apply in_map_iff. exists source. split; [| assumption].
  simpl in Hin.
  destruct Hin as [E | [E | [E | []]]]; inversion E; subst; reflexivity.
Qed.

Lemma renamed_lacks_source (c : string) (cols : list string) :
  In c ["sexe"; "prenom"; "nombre"] ->
  has_label c (map (rename_label required_columns) cols) = false.
Proof.
  intros Hc. apply not_true_iff_false. rewrite has_label_In, in_map_iff.
  intros [x [Hx _]].
  destruct (rename_label_cases x) as [[-> E] | [[-> E] | [[-> E] | [N1 [N2 [N3 E]]]]]];
    rewrite E in Hx; subst c; simpl in Hc;
    repeat (destruct Hc as [Hc | Hc]; try discriminate; try congruence).
Qed.

Lemma sexe_position_from (n i : nat) (cols : list string) :
  positions_from n "Sexe" (map (rename_label required_columns) cols) = [i] ->
  has_label "sexe" cols = true ->
  positions_from n "sexe" cols = [i].
Proof.
  revert n. induction cols as [| c cs IH]; intros n; simpl; [discriminate |].
  intros Hpos Hhas.
  assert (Hrest : positions_from (S n) "Sexe"
                    (map (rename_label required_columns) cs) = [] ->
                  has_label "sexe" cs = false).
  { intros Hr. apply positions_from_nil_iff in Hr.
    apply not_true_iff_false. intros Hs.
    apply (renamed_has_label "sexe" "Sexe") in Hs; [congruence | simpl; auto]. }
  destruct (rename_label_cases c) as [[-> E] | [[-> E] | [[-> E] | [N1 [N2 [N3 E]]]]]];
    rewrite E in Hpos.
  - rewrite String.eqb_refl in Hpos |- *.
    injection Hpos as -> Hr. f_equal.
    apply positions_from_nil_iff. auto.
  - change (String.eqb "Prenom" "Sexe") with false in Hpos.
    change (String.eqb "sexe" "prenom") with false in Hhas.
    change (String.eqb "prenom" "sexe") with false.
    apply IH; assumption.
  - change (String.eqb "Nombre" "Sexe") with false in Hpos.
    change (String.eqb "sexe" "nombre") with false in Hhas.
    change (String.eqb "nombre" "sexe") with false.
    apply IH; assumption.
  - destruct (String.eqb_spec c "sexe") as [-> | _]; [congruence |].
    destruct (String.eqb_spec "sexe" c) as [<- | _]; [congruence |].
    simpl in Hhas.
    destruct (String.eqb_spec c "Sexe") as [-> | _].
    + injection Hpos as -> Hr. apply Hrest in Hr. congruence.
    + apply IH; assumption.
Qed.

Lemma sexe_position (i : nat) (cols : list string) :
  select "Sexe" (map (rename_label required_columns) cols) = Unique i ->
  has_label "sexe" cols = true ->
  select "sexe" cols = Unique i.
Proof.
  unfold select, positions. intros Hs Hh.
  destruct (positions_from 0 "Sexe" (map (rename_label required_columns) cols))
    as [| j [| k l]] eqn:E; try discriminate.
  injection Hs as ->.
  rewrite (sexe_position_from _ _ _ E Hh). reflexivity.
Qed.

Lemma cell_update_nth (i : nat) (f : value -> value) (r : list value) :
  f VNaN = VNaN -> cell i (update_nth i f r) = f (cell i r).
Proof.
  intros Hf. unfold cell. revert i.
  induction r as [| x r IH]; intros [| i]; simpl; auto.
Qed.

Lemma cell_update_nth_other (i j : nat) (f : value -> value) (r : list value) :
  i <> j -> cell j (update_nth i f r) = cell j r.
Proof.
  unfold cell. revert i j.
  induction r as [| x r IH]; intros [| i] [| j] H; simpl; auto; congruence.
Qed.

Lemma Forall2_map_same {A B} (P : A -> B -> Prop) (f : A -> B) (l : list A) :
  (forall x, In x l -> P x (f x)) -> Forall2 P l (map f l).
Proof.
  induction l as [| x l IH]; simpl; intros H; constructor; auto.
Qed.

Lemma load_csv_file_shape (env : Env) (filename : string) (d : DataFrame) :
  fst (load_csv_file env filename) = Ret d ->
  exists t i,
    parses_to (file env filename) t /\
    missing_of (columns t) = [] /\
    select "sexe" (columns t) = Unique i /\
    select "Sexe" (map (rename_label required_columns) (columns t)) = Unique i /\
    d = map_column i sex_decode (rename required_columns t).
Proof.
  intros H. apply load_csv_file_inv in H. destruct H as [t [Hp H]].
  apply validate_and_decode_inv in H. destruct H as [Hm [i [Hs ->]]].
  exists t, i. repeat split; auto.
  apply sexe_position; [exact Hs |].
  apply missing_of_nil in Hm. tauto.
Qed.

Lemma sex_decode_other (v : value) :
  v <> VInt 1 -> v <> VInt 2 -> sex_decode v = VNaN.
Proof.
  intros H1 H2.
  destruct v as [[| [p | [p | p |] |] | p] | s |]; try reflexivity; congruence.
Qed.

(** C3.  The decoding of line 76 sends code 1 to "M", code 2 to "F" and
    every other cell to the missing value; a load that returns has applied
    it to the [sexe] cell of every row of the parsed table, row by row; and
    whether the checks and the decoding of a parsed table go through does
    not depend on its cells, so no code makes them raise. *)
Theorem sexe_decoding_per_record :
  sex_decode (VInt 1) = VStr "M" /\
  sex_decode (VInt 2) = VStr "F" /\
  (forall v, v <> VInt 1 -> v <> VInt 2 -> sex_decode v = VNaN) /\
  (forall env filename d,
      fst (load_csv_file env filename) = Ret d ->
      exists t,
        parses_to (file env filename) t /\
        Forall2 (fun r r' =>
                   field "Sexe" (columns d) r' =
                   sex_decode (field "sexe" (columns t) r))
                (rows t) (rows d)) /\
  (forall filename t d rs,
      fst (validate_and_decode filename t) = Ret d ->
      exists d',
        fst (validate_and_decode filename (mkDF (columns t) (dtypes t) rs)) = Ret d').
Proof.
  split; [reflexivity |]. split; [reflexivity |].
  split; [exact sex_decode_other |]. split.
  - intros env filename d H.
    apply load_csv_file_shape in H.
    destruct H as [t [i [Hp [_ [Hs [Hs' ->]]]]]].
    exists t. split; [exact Hp |].
    simpl. apply Forall2_map_same. intros r _.
    unfold field. rewrite Hs, Hs'.
    apply cell_update_nth. reflexivity.
  - intros filename t d rs H.
    apply validate_and_decode_inv in H. destruct H as [Hm [i [Hs _]]].
    eexists.
    rewrite (validate_and_decode_ok filename (mkDF (columns t) (dtypes t) rs) i Hm Hs).
    reflexivity.
Qed.

Lemma sexe_decoding_per_record_witness :
  sex_decode (VInt 3) = VNaN /\
  exists t,
    parses_to (file scenario "Prenoms2003.csv") t /\
    Forall2 (fun r r' =>
               field "Sexe" (columns dataset_a) r' =
               sex_decode (field "sexe" (columns t) r))
            (rows t) (rows dataset_a).
Proof.
  destruct sexe_decoding_per_record as [_ [_ [Hother [Hload _]]]].
  split.
  - apply Hother; discriminate.
  - apply (Hload scenario "Prenoms2003.csv" dataset_a). reflexivity.
Defined.

Lemma load_csv_file_missing (env : Env) (filename line : string) (t : DataFrame) :
  present (file env filename) = true ->
  first_line (file env filename) = inr line ->
  parses_to (file env filename) t ->
  missing_of (columns t) <> [] ->
  exists tr,
    load_csv_file env filename =
    (Exit 1,
     tr ++ map (fun c => LogError (ColumnMissing c)) (missing_of (columns t))
        ++ [LogError (UnexpectedLoadError filename
                        (MissingColumns (missing_of (columns t))))]).
Proof.
  intros Hp Hl Ht Hm.
  destruct (load_csv_file_parsed env filename line t Hp Hl Ht) as [tr Hb].
  rewrite (validate_and_decode_missing filename t Hm) in Hb.
  unfold load_csv_file. rewrite Hb. simpl.
  exists (tr ++ [LogInfo (FileIs filename); LogInfo (TotalRows (nrows t));
                 LogInfo (ColumnsFound (columns t))]).
  rewrite <- !app_assoc. reflexivity.
Qed.

(** C4.  When the file is there and parses to a table whose header lacks
    some of [sexe], [prenom], [nombre], the loader ends the process with
    status 1 and returns no dataset; the error it logs lists every required
    name that the header lacks, and only those, and each of them is logged
    on its own as well. *)
Theorem missing_columns_rejected
        (env : Env) (filename line : string) (t : DataFrame) :
  present (file env filename) = true ->
  first_line (file env filename) = inr line ->
  parses_to (file env filename) t ->
  missing_of (columns t) <> [] ->
  fst (load_csv_file env filename) = Exit 1 /\
  In (LogError (UnexpectedLoadError filename
                  (MissingColumns (missing_of (columns t)))))
     (trace (load_csv_file env filename)) /\
  (forall c, In c (missing_of (columns t)) <->
             In c ["sexe"; "prenom"; "nombre"] /\ ~ In c (columns t)) /\
  (forall c, In c (missing_of (columns t)) ->
             In (LogError (ColumnMissing c)) (trace (load_csv_file env filename))).
Proof.
  intros Hp Hl Ht Hm.
  destruct (load_csv_file_missing env filename line t Hp Hl Ht Hm) as [tr ->].
  unfold trace. simpl.
  split; [reflexivity |]. split; [| split].
  - rewrite !in_app_iff. right. right. simpl. auto.
  - apply missing_of_In.
  - intros c Hc. rewrite !in_app_iff. right. left.
    apply in_map_iff. exists c. auto.
Qed.

Lemma missing_columns_rejected_witness :
  fst (load_csv_file (one_file "sexe,annee" table_sexe_only) "Prenoms2003.csv") = Exit 1 /\
  In (LogError (UnexpectedLoadError "Prenoms2003.csv"
                  (MissingColumns ["prenom"; "nombre"])))
     (trace (load_csv_file (one_file "sexe,annee" table_sexe_only) "Prenoms2003.csv")) /\
  (forall c, In c (missing_of (columns table_sexe_only)) <->
             In c ["sexe"; "prenom"; "nombre"] /\ ~ In c (columns table_sexe_only)) /\
  (forall c, In c (missing_of (columns table_sexe_only)) ->
             In (LogError (ColumnMissing c))
                (trace (load_csv_file (one_file "sexe,annee" table_sexe_only)
                                      "Prenoms2003.csv"))).
Proof.
  apply (missing_columns_rejected (one_file "sexe,annee" table_sexe_only)
           "Prenoms2003.csv" "sexe,annee" table_sexe_only).
  - reflexivity.
  - reflexivity.
  - left. reflexivity.
  - discriminate.
Defined.

(** C6, counterexample.  A file with a fourth column, a nameless row and a
    negative count loads without error; the dataset returned breaks each
    part of the stated invariant. *)
Lemma loaded_invariant_counterexample :
  fst (load_csv_file (one_file "sexe,prenom,nombre,annee" table_unchecked)
                     "Prenoms2003.csv") = Ret dataset_unchecked /\
  ~ names_present dataset_unchecked /\
  ~ counts_non_negative dataset_unchecked /\
  ~ columns_exactly_canonical dataset_unchecked.
Proof.
  split; [reflexivity |]. split; [| split].
  - intros H.
    apply (H [VNaN; VNaN; VInt (-4); VInt 2003]); [left |]; reflexivity.
  - intros H.
    destruct (H [VNaN; VNaN; VInt (-4); VInt 2003]) as [z [Hz Hpos]];
      [left; reflexivity |].
    vm_compute in Hz. injection Hz as <-. lia.
  - intros H.
    destruct (H "annee") as [Hin _].
    assert (Hc : In "annee" ["Sexe"; "Prenom"; "Nombre"])
      by (apply Hin; simpl; auto).
    simpl in Hc. repeat (destruct Hc as [Hc | Hc]; try discriminate). exact Hc.
Qed.

(** C6, as the code has it.  A dataset returned by the loader has the
    columns of the parsed table, with [sexe], [prenom] and [nombre] renamed
    and every other column kept; [Sexe] names exactly one column, [Prenom]
    and [Nombre] are present; it has the rows of the parsed table, in which
    the [Sexe] cell is "M", "F" or missing and every other cell, names and
    counts included, is as it was parsed. *)
Theorem loaded_dataset_shape (env : Env) (filename : string) (d : DataFrame) :
  fst (load_csv_file env filename) = Ret d ->
  exists t i,
    parses_to (file env filename) t /\
    columns d = map (rename_label required_columns) (columns t) /\
    select "Sexe" (columns d) = Unique i /\
    has_label "Prenom" (columns d) = true /\
    has_label "Nombre" (columns d) = true /\
    Forall2 (fun r r' =>
               (cell i r' = VStr "M" \/ cell i r' = VStr "F" \/ cell i r' = VNaN) /\
               forall j, j <> i -> cell j r' = cell j r)
            (rows t) (rows d).
Proof.
  intros H. apply load_csv_file_shape in H.
  destruct H as [t [i [Hp [Hm [_ [Hs ->]]]]]].
  apply missing_of_nil in Hm. destruct Hm as [_ [Hpre Hnom]].
  exists t, i. simpl. repeat split; auto.
  - apply (renamed_has_label "prenom" "Prenom"); simpl; auto.
  - apply (renamed_has_label "nombre" "Nombre"); simpl; auto.
  - apply Forall2_map_same. intros r _. split.
    + rewrite cell_update_nth by reflexivity.
      destruct (cell i r) as [[| [p | [p | p |] |] | p] | s |]; simpl; auto.
    + intros j Hj. apply cell_update_nth_other. congruence.
Qed.

Lemma loaded_dataset_shape_witness :
  exists t i,
    parses_to (file (one_file "sexe,prenom,nombre,annee" table_unchecked)
                    "Prenoms2003.csv") t /\
    columns dataset_unchecked = map (rename_label required_columns) (columns t) /\
    select "Sexe" (columns dataset_unchecked) = Unique i /\
    has_label "Prenom" (columns dataset_unchecked) = true /\
    has_label "Nombre" (columns dataset_unchecked) = true /\
    Forall2 (fun r r' =>
               (cell i r' = VStr "M" \/ cell i r' = VStr "F" \/ cell i r' = VNaN) /\
               forall j, j <> i -> cell j r' = cell j r)
            (rows t) (rows dataset_unchecked).
Proof.
  apply (loaded_dataset_shape
           (one_file "sexe,prenom,nombre,annee" table_unchecked) "Prenoms2003.csv").
  reflexivity.
Defined.

(** No dataset of the pipeline has a column under a source name. *)
Lemma concat_columns (a b m : DataFrame) (c : string) :
  concat a b = inr m -> In c (columns m) -> In c (columns a) \/ In c (columns b).
Proof.
  unfold concat.
  destruct (list_string_eqb (columns a) (columns b)).
  - intros [= <-]. simpl. auto.
  - destruct (distinct_labels (columns a) && distinct_labels (columns b));
      [| discriminate].
    intros [= <-]. simpl. rewrite in_app_iff, filter_In. tauto.
Qed.

Lemma pipeline_dataset_columns (env : Env) (d : DataFrame) :
  pipeline_dataset env d -> missing_of (columns d) = ["sexe"; "prenom"; "nombre"].
Proof.
  intros H.
  assert (Hno : forall c, In c ["sexe"; "prenom"; "nombre"] ->
                          has_label c (columns d) = false).
  { induction H as [filename d H | a b m _ IHa _ IHb Hc].
    - apply load_csv_file_shape in H.
      destruct H as [t [i [_ [_ [_ [_ ->]]]]]]. simpl.
      intros c Hc. now apply renamed_lacks_source.
    - intros c Hin. apply not_true_iff_false. rewrite has_label_In. intros Hm.
      destruct (concat_columns _ _ _ _ Hc Hm) as [Ha | Hb].
      + apply has_label_In in Ha. rewrite (IHa c Hin) in Ha. discriminate.
      + apply has_label_In in Hb. rewrite (IHb c Hin) in Hb. discriminate. }
  unfold missing_of. simpl.
  rewrite !Hno; simpl; auto.
Qed.

(** C5, counterexample.  The scenario's run writes the merged dataset; the
    file read back with that header and those cells is refused by the
    loader, so nothing is reproduced. *)
Lemma round_trip_counterexample :
  In (WriteCsv "Prenoms2003-2004.csv" ";" merged_ab) (trace (main scenario)) /\
  parses_to (file reload_merged "Prenoms2003-2004.csv") merged_ab /\
  fst (load_csv_file reload_merged "Prenoms2003-2004.csv") = Exit 1 /\
  ~ round_trip reload_merged "Prenoms2003-2004.csv" merged_ab.
Proof.
  split; [| split; [| split]].
  - vm_compute. tauto.
  - left. reflexivity.
  - reflexivity.
  - intros [d' [H _]]. vm_compute in H. discriminate.
Qed.

(** C5, as the code has it.  A file whose header is that of a dataset of
    the pipeline, as the exporter writes it, cannot be loaded back: the
    loader asks for the source names [sexe], [prenom], [nombre], which
    renaming has removed, logs all three as missing and ends the process
    with status 1. *)
Theorem reload_of_export_rejected
        (env env' : Env) (d t : DataFrame) (path line : string) :
  pipeline_dataset env d ->
  present (file env' path) = true ->
  first_line (file env' path) = inr line ->
  parses_to (file env' path) t ->
  columns t = columns d ->
  fst (load_csv_file env' path) = Exit 1 /\
  In (LogError (UnexpectedLoadError path
                  (MissingColumns ["sexe"; "prenom"; "nombre"])))
     (trace (load_csv_file env' path)).
Proof.
  intros Hd Hp Hl Ht Hc.
  assert (Hm : missing_of (columns t) = ["sexe"; "prenom"; "nombre"]).
  { rewrite Hc. exact (pipeline_dataset_columns env d Hd). }
  destruct (load_csv_file_missing env' path line t Hp Hl Ht) as [tr ->].
  - rewrite Hm. discriminate.
  - rewrite Hm. unfold trace. simpl. split; [reflexivity |].
    rewrite in_app_iff. right. simpl. auto 6.
Qed.

Lemma reload_of_export_rejected_witness :
  fst (load_csv_file reload_merged "Prenoms2003-2004.csv") = Exit 1 /\
  In (LogError (UnexpectedLoadError "Prenoms2003-2004.csv"
                  (MissingColumns ["sexe"; "prenom"; "nombre"])))
     (trace (load_csv_file reload_merged "Prenoms2003-2004.csv")).
Proof.
  apply (reload_of_export_rejected scenario reload_merged merged_ab merged_ab
           "Prenoms2003-2004.csv" "Sexe;Prenom;Nombre").
  - apply (merged_dataset scenario dataset_a dataset_b merged_ab).
    + apply (loaded_dataset scenario "Prenoms2003.csv"). reflexivity.
    + apply (loaded_dataset scenario "Prenoms2004.csv"). reflexivity.
    + reflexivity.
  - reflexivity.
  - reflexivity.
  - left. reflexivity.
  - reflexivity.
Defined.

(** ** Group keys *)

Lemma value_eqb_eq (a b : value) : value_eqb a b = true <-> a = b.
Proof.
  destruct a as [x | s |], b as [y | t |]; simpl; split; intros H;
    try discriminate; try reflexivity.
  - apply Z.eqb_eq in H. now subst.
  - injection H as ->. apply Z.eqb_refl.
  - apply String.eqb_eq in H. now subst.
  - injection H as ->. apply String.eqb_refl.
Qed.

Lemma value_eqb_refl (a : value) : value_eqb a a = true.
Proof. now apply value_eqb_eq. Qed.

Lemma key_compare_eq (a b : value) : key_compare a b = Eq <-> a = b.
Proof.
  destruct a as [x | s |], b as [y | t |]; simpl; split; intros H;
    try discriminate; try reflexivity.
  - apply Z.compare_eq in H. now subst.
  - injection H as ->. apply Z.compare_refl.
  - destruct (String_as_OT.compare_spec s t) as [E | L | G]; try discriminate.
    f_equal. exact E.
  - injection H as ->.
    destruct (String_as_OT.compare_spec t t) as [E | L | G]; try reflexivity;
      exfalso; eapply (StrictOrder_Irreflexive (R := String_as_OT.lt)); eassumption.
Qed.

Lemma key_compare_gt (a b : value) : key_compare a b = Gt -> key_lt b a.
Proof.
  unfold key_lt.
  destruct a as [x | s |], b as [y | t |]; simpl; intros H;
    try discriminate; try reflexivity.
  - now apply Z.compare_gt_iff, Z.compare_lt_iff in H.
  - destruct (String_as_OT.compare_spec s t) as [E | L | G]; try discriminate.
    exact G.
Qed.

Lemma key_lt_trans (a b c : value) : key_lt a b -> key_lt b c -> key_lt a c.
Proof.
  unfold key_lt.
  destruct a as [x | s |], b as [y | t |], c as [z | u |]; simpl;
    intros H1 H2; try discriminate; try reflexivity.
  - rewrite Z.compare_lt_iff in *. lia.
  - exact (StrictOrder_Transitive (R := String_as_OT.lt) s t u H1 H2).
Qed.

Lemma key_lt_irrefl (a : value) : ~ key_lt a a.
Proof.
  unfold key_lt. intros H.
  assert (E : key_compare a a = Eq) by now apply key_compare_eq.
  congruence.
Qed.

Lemma insert_key_In (k x : value) (ks : list value) :
  In x (insert_key k ks) <-> x = k \/ In x ks.
Proof.
  induction ks as [| k' ks IH]; simpl; [intuition |].
  destruct (key_compare k k') eqn:E; simpl.
  - apply key_compare_eq in E. subst. intuition.
  - intuition.
  - rewrite IH. intuition.
Qed.

Lemma insert_key_sorted (k : value) (ks : list value) :
  StronglySorted key_lt ks -> StronglySorted key_lt (insert_key k ks).
Proof.
  induction ks as [| k' ks IH]; simpl; intros Hs.
  - constructor; constructor.
  - inversion Hs as [| ? ? Hs' Hall]; subst.
    destruct (key_compare k k') eqn:E.
    + exact Hs.
    + constructor; [exact Hs |].
      constructor; [exact E |].
      eapply Forall_impl; [| exact Hall].
      intros x Hx. exact (key_lt_trans _ _ _ E Hx).
    + constructor; [auto |].
      apply Forall_forall. intros x Hx.
      apply insert_key_In in Hx. destruct Hx as [-> | Hx].
      * now apply key_compare_gt.
      * rewrite Forall_forall in Hall. auto.
Qed.

Lemma group_keys_sorted (keys : list value) :
  StronglySorted key_lt (group_keys keys).
Proof.
  unfold group_keys.
  induction (filter (fun k => negb (is_nan k)) keys) as [| k l IH]; simpl.
  - constructor.
  - now apply insert_key_sorted.
Qed.

Lemma group_keys_In (keys : list value) (x : value) :
  In x (group_keys keys) <-> In x keys /\ x <> VNaN.
Proof.
  unfold group_keys.
  assert (H : forall l, In x (fold_right insert_key [] l) <-> In x l).
  { induction l as [| k l IH]; simpl; [tauto |].
    rewrite insert_key_In, IH. intuition. }
  rewrite H, filter_In.
  destruct x; simpl; intuition; discriminate.
Qed.

Lemma sorted_NoDup (l : list value) : StronglySorted key_lt l -> NoDup l.
Proof.
  induction 1 as [| k l Hs IH Hall]; constructor; auto.
  intros Hin. rewrite Forall_forall in Hall.
  exact (key_lt_irrefl k (Hall k Hin)).
Qed.

(** Two sorted lists of keys with the same members are the same list. *)
Lemma sorted_unique (l1 l2 : list value) :
  StronglySorted key_lt l1 -> StronglySorted key_lt l2 ->
  (forall x, In x l1 <-> In x l2) -> l1 = l2.
Proof.
  intros H1. revert l2.
  induction H1 as [| a l1 Hs1 IH Hall1]; intros l2 H2 Hiff.
  - destruct l2 as [| b l2]; [reflexivity |].
    exfalso. apply (Hiff b). simpl. auto.
  - inversion H2 as [| b l2' Hs2 Hall2]; subst.
    + exfalso. apply (Hiff a). simpl. auto.
    + rewrite Forall_forall in Hall1, Hall2.
      assert (Hab : a = b).
      { destruct (proj1 (Hiff a) (or_introl eq_refl)) as [E | Hin]; [auto |].
        destruct (proj2 (Hiff b) (or_introl eq_refl)) as [E | Hin']; [auto |].
        exfalso. apply (key_lt_irrefl a).
        exact (key_lt_trans _ _ _ (Hall1 _ Hin') (Hall2 _ Hin)). }
      subst b. f_equal. apply IH; [assumption |].
      intros x. split; intros Hx.
      * destruct (proj1 (Hiff x) (or_intror Hx)) as [E | Hin]; [| assumption].
        subst x. exfalso. exact (key_lt_irrefl a (Hall1 _ Hx)).
      * destruct (proj2 (Hiff x) (or_intror Hx)) as [E | Hin]; [| assumption].
        subst x. exfalso. exact (key_lt_irrefl a (Hall2 _ Hx)).
Qed.

Lemma group_keys_perm (l l' : list value) :
  Permutation l l' -> group_keys l = group_keys l'.
Proof.
  intros Hp. apply sorted_unique; try apply group_keys_sorted.
  intros x. rewrite !group_keys_In.
  split; intros [Hin Hn]; split; auto.
  - eapply Permutation_in; eassumption.
  - eapply Permutation_in; [apply Permutation_sym |]; eassumption.
Qed.

(** ** Sums *)

Lemma wrap64_add_r (a b : Z) : wrap64 (a + wrap64 b) = wrap64 (a + b).
Proof.
  unfold wrap64. f_equal.
  replace (a + ((b + 2 ^ 63) mod 2 ^ 64 - 2 ^ 63) + 2 ^ 63)
    with (a + (b + 2 ^ 63) mod 2 ^ 64) by lia.
  rewrite Zplus_mod_idemp_r. f_equal. lia.
Qed.

Lemma wrap64_add_l (a b : Z) : wrap64 (wrap64 a + b) = wrap64 (a + b).
Proof. rewrite Z.add_comm, wrap64_add_r. f_equal. lia. Qed.

Lemma wrap64_small (z : Z) : - 2 ^ 63 <= z < 2 ^ 63 -> wrap64 z = z.
Proof. intros H. unfold wrap64. rewrite Z.mod_small; lia. Qed.

Lemma int_sum_cons (v : value) (l : list value) :
  int_sum (v :: l) = num_of v + int_sum l.
Proof. destruct v; simpl; lia. Qed.

Lemma int_sum_perm (l l' : list value) :
  Permutation l l' -> int_sum l = int_sum l'.
Proof.
  induction 1 as [| x l l' _ IH | x y l | l l' l'' _ IH1 _ IH2].
  - reflexivity.
  - rewrite !int_sum_cons. lia.
  - rewrite !int_sum_cons. lia.
  - congruence.
Qed.

Lemma filter_perm {A} (f : A -> bool) (l l' : list A) :
  Permutation l l' -> Permutation (filter f l) (filter f l').
Proof.
  induction 1 as [| x l l' _ IH | x y l | l l' l'' _ IH1 _ IH2]; simpl.
  - constructor.
  - destruct (f x); auto.
  - destruct (f x), (f y); auto. constructor.
  - eapply Permutation_trans; eassumption.
Qed.

Lemma group_cells_perm (kp c : nat) (k : value) (rs rs' : list (list value)) :
  Permutation rs rs' ->
  Permutation (group_cells kp c k rs) (group_cells kp c k rs').
Proof.
  intros H. unfold group_cells. apply Permutation_map. now apply filter_perm.
Qed.

Lemma traverse_ext {A B} (f g : A -> exn + B) (l : list A) :
  (forall x, In x l -> f x = g x) -> traverse f l = traverse g l.
Proof.
  induction l as [| x l IH]; simpl; intros H; [reflexivity |].
  rewrite (H x) by auto. rewrite IH by auto. reflexivity.
Qed.

Lemma traverse_total {A B} (f : A -> exn + B) (g : A -> B) (l : list A) :
  (forall x, In x l -> f x = inr (g x)) -> traverse f l = inr (map g l).
Proof.
  induction l as [| x l IH]; simpl; intros H; [reflexivity |].
  rewrite (H x) by auto. rewrite IH by auto. reflexivity.
Qed.

Lemma select_unique (name : string) (cols : list string) (i : nat) :
  select name cols = Unique i <-> positions name cols = [i].
Proof.
  unfold select. destruct (positions name cols) as [| j [| k l]]; split;
    intros H; try discriminate; congruence.
Qed.

Lemma int_sum_filter_or (c : nat) (f g : list value -> bool) (rs : list (list value)) :
  (forall r, In r rs -> f r = true -> g r = false) ->
  int_sum (map (cell c) (filter (fun r => f r || g r) rs)) =
  int_sum (map (cell c) (filter f rs)) + int_sum (map (cell c) (filter g rs)).
Proof.
  induction rs as [| r rs IH]; intros H; [reflexivity |].
  simpl. specialize (IH (fun r' Hr' => H r' (or_intror Hr'))).
  destruct (f r) eqn:Ef.
  - rewrite (H r (or_introl eq_refl) Ef). simpl map.
    rewrite !int_sum_cons. lia.
  - destruct (g r); simpl map; rewrite ?int_sum_cons; lia.
Qed.

Lemma groups_total_eq (kp c : nat) (rs : list (list value)) (ks : list value) :
  NoDup ks ->
  groups_total kp c rs ks =
  int_sum (map (cell c) (filter (fun r => existsb (value_eqb (cell kp r)) ks) rs)).
Proof.
  induction 1 as [| k ks Hnin Hnd IH]; simpl.
  - induction rs as [| r rs IHr]; simpl; auto.
  - rewrite int_sum_filter_or.
    + rewrite IH. reflexivity.
    + intros r _ Hk. apply value_eqb_eq in Hk.
      apply not_true_iff_false. rewrite existsb_exists.
      intros [x [Hx Hex]]. apply value_eqb_eq in Hex. congruence.
Qed.

Lemma wrapped_groups_total (kp c : nat) (rs : list (list value)) (ks : list value) :
  wrap64 (int_sum (map (fun k => VInt (wrap64 (int_sum (group_cells kp c k rs)))) ks)) =
  wrap64 (groups_total kp c rs ks).
Proof.
  induction ks as [| k ks IH]; [reflexivity |].
  simpl. rewrite wrap64_add_l, <- wrap64_add_r, IH, wrap64_add_r. reflexivity.
Qed.

Lemma plain_groups_total (kp c : nat) (rs : list (list value)) (ks : list value) :
  (forall k, - 2 ^ 63 <= int_sum (group_cells kp c k rs) < 2 ^ 63) ->
  int_sum (map (fun k => VInt (wrap64 (int_sum (group_cells kp c k rs)))) ks) =
  groups_total kp c rs ks.
Proof.
  intros Hrange. induction ks as [| k ks IH]; [reflexivity |].
  simpl. rewrite (wrap64_small _ (Hrange k)), IH. reflexivity.
Qed.

Lemma grouped_rows_filter (kp : nat) (rs : list (list value)) :
  filter (fun r => existsb (value_eqb (cell kp r)) (group_keys (map (cell kp) rs))) rs =
  filter (fun r => negb (is_nan (cell kp r))) rs.
Proof.
  apply filter_ext_in. intros r Hr.
  destruct (is_nan (cell kp r)) eqn:En; simpl.
  - apply not_true_iff_false. rewrite existsb_exists.
    intros [x [Hx Hex]]. apply value_eqb_eq in Hex. subst x.
    apply group_keys_In in Hx. destruct Hx as [_ Hx].
    destruct (cell kp r); try discriminate. congruence.
  - apply existsb_exists. exists (cell kp r). split; [| apply value_eqb_refl].
    apply group_keys_In. split.
    + apply in_map. exact Hr.
    + intros E. rewrite E in En. discriminate.
Qed.

(** The grouped sum of an [Int64] column, in closed form. *)
Lemma groupby_sum_int64 (key col : string) (df : DataFrame) (kp c : nat) :
  select key (columns df) = Unique kp ->
  select col (columns df) = Unique c ->
  column_dtype c df = Int64 ->
  groupby_sum key col df =
  inr (GSeries (column_dtype kp df)
         (mkSeries Int64
            (map (fun k => (k, VInt (wrap64 (int_sum (group_cells kp c k (rows df))))))
                 (group_keys (column_cells kp df))))).
Proof.
  intros Hk Hc Hd. unfold groupby_sum.
  apply select_unique in Hc. rewrite Hk, Hc, Hd.
  rewrite (traverse_total _
             (fun k => (k, VInt (wrap64 (int_sum (group_cells kp c k (rows df))))))).
  - reflexivity.
  - intros k _. reflexivity.
Qed.

(** C1, counterexample.  A row without a name loads; [groupby] leaves it
    out of every group, so the grouped totals add up to 7 while the counts
    of the dataset add up to 12. *)
Lemma conservation_counterexample :
  fst (load_csv_file (one_file "sexe,prenom,nombre" table_nameless)
                     "Prenoms2003.csv") = Ret dataset_nameless /\
  groupby_sum "Prenom" "Nombre" dataset_nameless =
    inr (GSeries Object (mkSeries Int64 [(VStr "Marie", VInt 7)])) /\
  sum_cells Int64 [VInt 7] = inr (VInt 7) /\
  sum_cells Int64 (map (field "Nombre" (columns dataset_nameless))
                       (rows dataset_nameless)) = inr (VInt 12).
Proof. repeat split; reflexivity. Qed.

Lemma wrap64_eq_iff (x y : Z) :
  wrap64 x = wrap64 y <-> (x - y) mod 2 ^ 64 = 0.
Proof.
  unfold wrap64. split; intros H.
  - assert (E : (x + 2 ^ 63) mod 2 ^ 64 = (y + 2 ^ 63) mod 2 ^ 64) by lia.
    apply Z.cong_iff_0 in E.
    replace (x + 2 ^ 63 - (y + 2 ^ 63)) with (x - y) in E by lia. exact E.
  - assert (E : (x + 2 ^ 63) mod 2 ^ 64 = (y + 2 ^ 63) mod 2 ^ 64).
    { apply Z.cong_iff_0.
      replace (x + 2 ^ 63 - (y + 2 ^ 63)) with (x - y) by lia. exact H. }
    lia.
Qed.

Lemma wrap64_absorbs_iff (a b : Z) :
  wrap64 a = wrap64 (a + b) <-> wrap64 b = 0.
Proof.
  assert (E0 : wrap64 0 = 0) by reflexivity.
  transitivity (wrap64 b = wrap64 0); [| rewrite E0; reflexivity].
  rewrite !wrap64_eq_iff.
  replace (a - (a + b)) with (- b) by lia. rewrite Z.sub_0_r.
  rewrite !Z.mod_divide by lia. apply Z.divide_opp_r.
Qed.

Lemma int_sum_named_split (c : nat) (f : list value -> bool)
      (rs : list (list value)) :
  int_sum (map (cell c) rs) =
  int_sum (map (cell c) (filter (fun r => negb (f r)) rs))
  + int_sum (map (cell c) (filter f rs)).
Proof.
  induction rs as [| r rs IH]; [reflexivity |].
  cbn [filter map]. rewrite int_sum_cons.
  destruct (f r); cbn [negb map]; rewrite int_sum_cons; lia.
Qed.

(** C1, as the code has it.  For a dataset whose counts are integers (an
    [Int64] column [Nombre], with [Prenom] and [Nombre] naming one column
    each), the grouped sum returns a Series whose total, in the int64
    arithmetic of pandas, is the total of [Nombre] over the rows that have a
    name.  It is the total over all rows when every row has a name, and in
    general exactly when the counts of the rows without a name add up to 0
    in that arithmetic.  While no group total leaves the int64 range, the
    total of the Series is the plain integer sum over the rows that have a
    name. *)
Theorem grouped_sum_conserves_named_total (df : DataFrame) (kp c : nat) :
  select "Prenom" (columns df) = Unique kp ->
  select "Nombre" (columns df) = Unique c ->
  column_dtype c df = Int64 ->
  exists s,
    groupby_sum "Prenom" "Nombre" df = inr (GSeries (column_dtype kp df) s) /\
    sum_cells Int64 (map snd (s_items s)) =
    sum_cells Int64
      (map (cell c) (filter (fun r => negb (is_nan (cell kp r))) (rows df))) /\
    (names_present df ->
     sum_cells Int64 (map snd (s_items s)) = sum_cells Int64 (column_cells c df)) /\
    (sum_cells Int64 (map snd (s_items s)) = sum_cells Int64 (column_cells c df) <->
     wrap64 (int_sum (map (cell c)
                          (filter (fun r => is_nan (cell kp r)) (rows df)))) = 0) /\
    ((forall k, - 2 ^ 63 <= int_sum (group_cells kp c k (rows df)) < 2 ^ 63) ->
     int_sum (map snd (s_items s)) =
     int_sum (map (cell c) (filter (fun r => negb (is_nan (cell kp r))) (rows df)))).
Proof.
  intros Hk Hc Hd.
  rewrite (groupby_sum_int64 _ _ _ _ _ Hk Hc Hd).
  eexists. split; [reflexivity |]. simpl s_items.
  assert (Hnd : NoDup (group_keys (column_cells kp df)))
    by (apply sorted_NoDup, group_keys_sorted).
  assert (Hnamed :
    sum_cells Int64
      (map snd (map (fun k => (k, VInt (wrap64 (int_sum (group_cells kp c k (rows df))))))
                    (group_keys (column_cells kp df)))) =
    sum_cells Int64
      (map (cell c) (filter (fun r => negb (is_nan (cell kp r))) (rows df)))).
  { rewrite map_map. simpl. rewrite wrapped_groups_total.
    rewrite (groups_total_eq _ _ _ _ Hnd).
    unfold column_cells. rewrite grouped_rows_filter. reflexivity. }
  split; [exact Hnamed |]. split; [| split].
  - intros Hnames. rewrite Hnamed. unfold column_cells.
    do 3 f_equal. apply forallb_filter_id. apply forallb_forall.
    intros r Hr. specialize (Hnames r Hr). unfold field in Hnames.
    rewrite Hk in Hnames. destruct (cell kp r); try reflexivity. congruence.
  - rewrite Hnamed. unfold column_cells. simpl.
    rewrite (int_sum_named_split c (fun r => is_nan (cell kp r)) (rows df)).
    rewrite <- (wrap64_absorbs_iff
                  (int_sum (map (cell c)
                     (filter (fun r => negb (is_nan (cell kp r))) (rows df))))).
    split; intros H; congruence.
  - intros Hrange. rewrite map_map. simpl.
    rewrite <- grouped_rows_filter. fold (column_cells kp df).
    rewrite <- (groups_total_eq _ _ _ _ Hnd).
    apply plain_groups_total. exact Hrange.
Qed.

Lemma grouped_sum_conserves_named_total_witness :
  exists s,
    groupby_sum "Prenom" "Nombre" merged_ab =
      inr (GSeries (column_dtype 1 merged_ab) s) /\
    sum_cells Int64 (map snd (s_items s)) =
    sum_cells Int64
      (map (cell 2) (filter (fun r => negb (is_nan (cell 1 r))) (rows merged_ab))) /\
    (names_present merged_ab ->
     sum_cells Int64 (map snd (s_items s)) = sum_cells Int64 (column_cells 2 merged_ab)) /\
    (sum_cells Int64 (map snd (s_items s)) = sum_cells Int64 (column_cells 2 merged_ab) <->
     wrap64 (int_sum (map (cell 2)
                          (filter (fun r => is_nan (cell 1 r)) (rows merged_ab)))) = 0) /\
    ((forall k, - 2 ^ 63 <= int_sum (group_cells 1 2 k (rows merged_ab)) < 2 ^ 63) ->
     int_sum (map snd (s_items s)) =
     int_sum (map (cell 2) (filter (fun r => negb (is_nan (cell 1 r))) (rows merged_ab)))).
Proof.
  apply (grouped_sum_conserves_named_total merged_ab 1 2); reflexivity.
Defined.

(** C9, counterexample.  A file whose counts are not numbers loads, with
    [Nombre] as a column of texts; the grouped sum then joins the texts of a
    name in row order, so that exchanging the two rows of Jean changes his
    total from "ab" to "ba". *)
Lemma order_independence_counterexample :
  fst (load_csv_file (one_file "sexe,prenom,nombre" table_text_pair)
                     "Prenoms2003.csv") = Ret dataset_text_pair /\
  columns dataset_text_pair_swapped = columns dataset_text_pair /\
  Permutation (rows dataset_text_pair) (rows dataset_text_pair_swapped) /\
  groupby_sum "Prenom" "Nombre" dataset_text_pair =
    inr (GSeries Object (mkSeries Object [(VStr "Jean", VStr "ab")])) /\
  groupby_sum "Prenom" "Nombre" dataset_text_pair_swapped =
    inr (GSeries Object (mkSeries Object [(VStr "Jean", VStr "ba")])).
Proof.
  split; [reflexivity |]. split; [reflexivity |].
  split; [apply perm_swap |]. split; reflexivity.
Qed.

(** C9, as the code has it.  For a dataset with integer counts (every
    column [Nombre] of dtype int64), the grouped sum of any reordering of
    its rows is the grouped sum of the dataset: the same names, in the same
    order, with the same totals. *)
Theorem groupby_sum_order_independent (df df' : DataFrame) :
  columns df' = columns df ->
  dtypes df' = dtypes df ->
  Permutation (rows df) (rows df') ->
  (forall c, In c (positions "Nombre" (columns df)) -> column_dtype c df = Int64) ->
  groupby_sum "Prenom" "Nombre" df' = groupby_sum "Prenom" "Nombre" df.
Proof.
  intros Hcols Hdt Hperm Hint. unfold groupby_sum.
  rewrite Hcols.
  destruct (select "Prenom" (columns df)) as [| kp |]; try reflexivity.
  assert (Hkeys : group_keys (column_cells kp df') = group_keys (column_cells kp df)).
  { apply group_keys_perm. unfold column_cells.
    apply Permutation_map, Permutation_sym, Hperm. }
  assert (Hty : forall i, column_dtype i df' = column_dtype i df)
    by (intros i; unfold column_dtype; now rewrite Hdt).
  assert (Hsum : forall k i, In i (positions "Nombre" (columns df)) ->
            sum_cells (column_dtype i df') (group_cells kp i k (rows df')) =
            sum_cells (column_dtype i df) (group_cells kp i k (rows df))).
  { intros k i Hi. rewrite Hty, (Hint i Hi). simpl. do 3 f_equal.
    apply int_sum_perm, group_cells_perm, Permutation_sym, Hperm. }
  rewrite Hkeys.
  destruct (positions "Nombre" (columns df)) as [| c [| c' ps]] eqn:Hps.
  - reflexivity.
  - assert (E : forall ks,
        traverse (fun k => match sum_cells (column_dtype c df')
                                           (group_cells kp c k (rows df')) with
                           | inl e => inl e
                           | inr v => inr (k, v)
                           end) ks =
        traverse (fun k => match sum_cells (column_dtype c df)
                                           (group_cells kp c k (rows df)) with
                           | inl e => inl e
                           | inr v => inr (k, v)
                           end) ks).
    { intros ks. apply traverse_ext. intros k _.
      rewrite Hsum by (simpl; auto). reflexivity. }
    rewrite E, !Hty. reflexivity.
  - assert (E : forall ks,
        traverse (fun k => match traverse
                                   (fun i => sum_cells (column_dtype i df')
                                                       (group_cells kp i k (rows df')))
                                   (c :: c' :: ps) with
                           | inl e => inl e
                           | inr vs => inr (k :: vs)
                           end) ks =
        traverse (fun k => match traverse
                                   (fun i => sum_cells (column_dtype i df)
                                                       (group_cells kp i k (rows df)))
                                   (c :: c' :: ps) with
                           | inl e => inl e
                           | inr vs => inr (k :: vs)
                           end) ks).
    { intros ks. apply traverse_ext. intros k _.
      rewrite (traverse_ext
                 (fun i => sum_cells (column_dtype i df')
                                     (group_cells kp i k (rows df')))
                 (fun i => sum_cells (column_dtype i df)
                                     (group_cells kp i k (rows df)))).
      - reflexivity.
      - intros i Hi. apply Hsum. exact Hi. }
    rewrite E, !Hty, (map_ext _ _ Hty). reflexivity.
Qed.

Lemma groupby_sum_order_independent_witness :
  groupby_sum "Prenom" "Nombre" merged_ab_shuffled =
  groupby_sum "Prenom" "Nombre" merged_ab.
Proof.
  apply (groupby_sum_order_independent merged_ab merged_ab_shuffled).
  - reflexivity.
  - reflexivity.
  - simpl. apply (perm_trans (l' :=
      [[VStr "M"; VStr "Jean"; VInt 3]; [VStr "M"; VStr "Jean"; VInt 5];
       [VStr "F"; VStr "Marie"; VInt 7]])).
    + apply Permutation_sym. apply (Permutation_cons_app [_; _] []). reflexivity.
    + apply perm_skip. apply perm_swap.
  - intros c Hc. vm_compute in Hc. destruct Hc as [<- | []]. reflexivity.
Defined.

(** ** The ranking *)

Lemma never_exits_bind {A B} (m : M A) (f : A -> M B) :
  never_exits m -> (forall a, never_exits (f a)) -> never_exits (bind m f).
Proof.
  unfold never_exits. intros Hm Hf c.
  destruct m as [[a | e | c'] t]; simpl.
  - specialize (Hf a c). destruct (f a) as [r t']. exact Hf.
  - discriminate.
  - exfalso. exact (Hm c' eq_refl).
Qed.

Lemma never_exits_lift {A} (r : exn + A) : never_exits (lift r).
Proof. intros c. destruct r; discriminate. Qed.

Lemma never_exits_emit (ev : Event) : never_exits (emit ev).
Proof. intros c. discriminate. Qed.

Lemma never_exits_ret {A} (a : A) : never_exits (ret a).
Proof. intros c. discriminate. Qed.

Lemma never_exits_print (env : Env) (l : report_line) : never_exits (print env l).
Proof. intros c. unfold print. destruct (print_outcome env l); discriminate. Qed.

Lemma never_exits_to_csv (env : Env) (path sep : string) (df : DataFrame) :
  never_exits (to_csv env path sep df).
Proof. intros c. unfold to_csv. destruct (write_outcome env path df); discriminate. Qed.

Lemma never_exits_print_ranking (env : Env) (lbl : label) (i : nat)
      (items : list (value * value)) :
  never_exits (print_ranking env lbl i items).
Proof.
  revert i. induction items as [| [prenom occurrence] rest IH]; intros i; simpl.
  - apply never_exits_ret.
  - apply never_exits_bind; [apply never_exits_print | intros _; apply IH].
Qed.

(* a sequence of steps none of which ends the process *)
Ltac no_exit :=
  repeat (cbv beta;
          first [ apply never_exits_lift | apply never_exits_emit
                | apply never_exits_ret | apply never_exits_print
                | apply never_exits_to_csv | apply never_exits_print_ranking
                | apply never_exits_bind; [| intro] ]).

(** A [try] whose body does not end the process and whose handler returns
    always returns. *)
Lemma try_except_returns {A} (m : M A) (h : exn -> M A) :
  never_exits m -> (forall e, exists a, fst (h e) = Ret a) ->
  exists a, fst (try_except m h) = Ret a.
Proof.
  intros Hm Hh. destruct m as [[a | e | c] t]; simpl.
  - eauto.
  - destruct (Hh e) as [a Ha]. destruct (h e) as [r t']. simpl in *. eauto.
  - exfalso. exact (Hm c eq_refl).
Qed.

Lemma never_exits_top_names_body (env : Env) (df : DataFrame) (year top_n : Z) :
  never_exits (top_names_body env df year top_n).
Proof.
  unfold top_names_body. no_exit.
Qed.

(** C10.  [process_top_names] returns on every table, year and count and
    for every behaviour of the standard output; whenever the body of its
    [try] raises, be it in computing the ranking or in printing it, what it
    returns is the empty Series, after logging the error. *)
Theorem process_top_names_never_raises
        (env : Env) (df : DataFrame) (year top_n : Z) :
  (exists s, fst (process_top_names env df year top_n) = Ret s) /\
  (forall e,
      fst (top_names_body env df year top_n) = Raise e ->
      process_top_names env df year top_n =
      (Ret empty_series,
       trace (top_names_body env df year top_n)
         ++ [LogError (TopNamesError year e)])).
Proof.
  split.
  - apply try_except_returns.
    + apply never_exits_top_names_body.
    + intros e. exists empty_series. reflexivity.
  - intros e He. unfold process_top_names, trace.
    destruct (top_names_body env df year top_n) as [r t].
    simpl in He. subst r. reflexivity.
Qed.

Lemma process_top_names_never_raises_witness :
  (exists s, fst (process_top_names scenario dataset_empty 2003 10) = Ret s) /\
  process_top_names scenario dataset_empty 2003 10 =
  (Ret empty_series,
   [LogError (TopNamesError 2003
                (TypeError "Cannot use method 'nlargest' with dtype object"))]).
Proof.
  destruct (process_top_names_never_raises scenario dataset_empty 2003 10)
    as [Hret Hraise].
  split; [exact Hret |].
  exact (Hraise (TypeError "Cannot use method 'nlargest' with dtype object") eq_refl).
Defined.



Lemma insert_desc_In (x y : value * value) (l : list (value * value)) :
  In y (insert_desc x l) <-> y = x \/ In y l.
Proof.
  induction l as [| z l IH]; simpl; [intuition |].
  destruct (num_of (snd z) <=? num_of (snd x)); simpl; [intuition |].
  rewrite IH. intuition.
Qed.

Lemma insert_desc_descending (x : value * value) (l : list (value * value)) :
  descending l -> descending (insert_desc x l).
Proof.
  unfold descending.
  induction l as [| y l IH]; simpl; intros Hs.
  - constructor; constructor.
  - inversion Hs as [| ? ? Hs' Hall]; subst.
    destruct (num_of (snd y) <=? num_of (snd x)) eqn:E.
    + apply Z.leb_le in E. constructor; [exact Hs |].
      constructor; [lia |].
      eapply Forall_impl; [| exact Hall]. intros z Hz. simpl in Hz. lia.
    + apply Z.leb_gt in E. constructor; [auto |].
      apply Forall_forall. intros z Hz.
      apply insert_desc_In in Hz. destruct Hz as [-> | Hz]; [lia |].
      rewrite Forall_forall in Hall. auto.
Qed.

Lemma sort_desc_descending (l : list (value * value)) : descending (sort_desc l).
Proof.
  induction l as [| x l IH]; simpl.
  - constructor.
  - now apply insert_desc_descending.
Qed.


(** What [nlargest] returns when it returns. *)
Lemma nlargest_inv (n : Z) (g : grouped) (s : Series) :
  nlargest n g = inr s ->
  exists idx sg,
    g = GSeries idx sg /\
    s_items s =
    if n <=? 0 then []
    else firstn (Z.to_nat n)
           (sort_desc (filter (fun kv => negb (is_nan (snd kv))) (s_items sg))).
Proof.
  destruct g as [idx sg | t]; simpl; [| discriminate].
  destruct (s_dtype sg); intros [= <-]; eauto.
Qed.


Lemma sum_cells_numeric (d : dtype) (cells : list value) :
  d <> Object -> sum_cells d cells = inr (VInt (numeric_sum d cells)).
Proof. destruct d; simpl; congruence. Qed.

Lemma groupby_sum_numeric (key col : string) (df : DataFrame) (kp c : nat) :
  select key (columns df) = Unique kp ->
  select col (columns df) = Unique c ->
  column_dtype c df <> Object ->
  groupby_sum key col df =
  inr (GSeries (column_dtype kp df)
         (mkSeries (column_dtype c df)
            (map (fun k => (k, VInt (numeric_sum (column_dtype c df)
                                       (group_cells kp c k (rows df)))))
                 (group_keys (column_cells kp df))))).
Proof.
  intros Hk Hc Hd. unfold groupby_sum.
  apply select_unique in Hc. rewrite Hk, Hc.
  rewrite (traverse_total _
             (fun k => (k, VInt (numeric_sum (column_dtype c df)
                                   (group_cells kp c k (rows df)))))).
  - reflexivity.
  - intros k _. rewrite sum_cells_numeric by assumption. reflexivity.
Qed.





Lemma traverse_In {A B} (f : A -> exn + B) (l : list A) (ys : list B) :
  traverse f l = inr ys ->
  forall y, In y ys -> exists x, In x l /\ f x = inr y.
Proof.
  revert ys. induction l as [| x l IH]; simpl; intros ys H y Hy.
  - injection H as <-. destruct Hy.
  - destruct (f x) as [e | b] eqn:Ef; [discriminate |].
    destruct (traverse f l) as [e | bs]; [discriminate |].
    injection H as <-. destruct Hy as [<- | Hy].
    + exists x. auto.
    + destruct (IH bs eq_refl y Hy) as [x' [Hin Hx']]. exists x'. auto.
Qed.

(** The totals of a numeric grouped sum are integers. *)
Lemma groupby_sum_totals (key col : string) (df : DataFrame) (idx : dtype) (sg : Series) :
  groupby_sum key col df = inr (GSeries idx sg) ->
  s_dtype sg <> Object ->
  Forall (fun kv => exists z, snd kv = VInt z) (s_items sg).
Proof.
  unfold groupby_sum.
  destruct (select key (columns df)) as [| kp |]; try discriminate.
  destruct (positions col (columns df)) as [| c [| c' ps]]; try discriminate.
  - destruct (traverse _ _) as [e | items] eqn:Et; [discriminate |].
    intros [= _ <-]. simpl. intros Hd.
    apply Forall_forall. intros kv Hkv.
    destruct (traverse_In _ _ _ Et kv Hkv) as [k [_ Hk]].
    rewrite (sum_cells_numeric _ _ Hd) in Hk. injection Hk as <-.
    simpl. eauto.
  - destruct (traverse _ _); discriminate.
Qed.










(** ** The merge *)

Lemma distinct_labels_NoDup (cols : list string) :
  distinct_labels cols = true <-> NoDup cols.
Proof.
  induction cols as [| c cs IH]; simpl.
  - split; [constructor | reflexivity].
  - rewrite andb_true_iff, negb_true_iff, IH, <- not_true_iff_false, has_label_In.
    split.
    + intros [Hn Hd]. now constructor.
    + intros H. inversion H; subst. auto.
Qed.

Lemma positions_from_at (n : nat) (c : string) (cols : list string) (j : nat) :
  In j (positions_from n c cols) ->
  exists i, j = (n + i)%nat /\ nth_error cols i = Some c.
Proof.
  revert n. induction cols as [| x cs IH]; intros n; simpl; [tauto |].
  intros H.
  assert (Hrest : In j (positions_from (S n) c cs) ->
                  exists i, j = (n + i)%nat /\ nth_error (x :: cs) i = Some c).
  { intros Hj. destruct (IH _ Hj) as [i [-> Hi]]. exists (S i). split; [lia | exact Hi]. }
  destruct (String.eqb_spec x c) as [-> | Hne]; [| auto].
  destruct H as [<- | H]; [| auto].
  exists 0%nat. split; [lia | reflexivity].
Qed.

Lemma distinct_positions (n : nat) (c : string) (cols : list string) :
  distinct_labels cols = true ->
  positions_from n c cols = [] \/ exists j, positions_from n c cols = [j].
Proof.
  revert n. induction cols as [| x cs IH]; intros n; simpl; [auto |].
  rewrite andb_true_iff, negb_true_iff. intros [Hn Hd].
  destruct (String.eqb_spec x c) as [-> | Hne]; [| auto].
  right. exists n. f_equal. now apply positions_from_nil_iff.
Qed.

(** Under distinct labels, the cell under label [c] of a row laid out by
    [target] is the cell under [c] of the row it was built from. *)
Lemma field_realign (c : string) (target cols : list string) (r : list value) :
  distinct_labels target = true ->
  (forall x, In x cols -> In x target) ->
  field c target (realign target cols r) = field c cols r.
Proof.
  intros Hd Hincl. unfold field at 1, select, positions.
  destruct (distinct_positions 0 c target Hd) as [E | [j E]]; rewrite E.
  - apply positions_from_nil_iff in E.
    unfold field, select, positions.
    assert (E' : positions_from 0 c cols = []).
    { apply positions_from_nil_iff. apply not_true_iff_false.
      rewrite has_label_In. intros Hin. apply Hincl in Hin.
      apply has_label_In in Hin. congruence. }
    rewrite E'. reflexivity.
  - assert (Hj : In j (positions_from 0 c target)) by (rewrite E; simpl; auto).
    apply positions_from_at in Hj. destruct Hj as [i [-> Hi]]. simpl.
    unfold cell, realign.
    apply (map_nth_error (fun c' => field c' cols r)) in Hi.
    exact (nth_error_nth _ _ VNaN Hi).
Qed.

Lemma record_of_realign (target cols : list string) (r : list value) :
  distinct_labels target = true ->
  (forall x, In x cols -> In x target) ->
  record_of target (realign target cols r) = record_of cols r.
Proof.
  intros Hd Hincl. unfold record_of.
  rewrite !field_realign by assumption. reflexivity.
Qed.

Lemma aligned_labels_distinct (xs ys : list string) :
  distinct_labels xs = true -> distinct_labels ys = true ->
  distinct_labels (xs ++ filter (fun c => negb (has_label c xs)) ys) = true.
Proof.
  rewrite !distinct_labels_NoDup. intros Hx Hy.
  apply NoDup_app; [assumption | now apply NoDup_filter |].
  intros c Hin Hf. apply filter_In in Hf. destruct Hf as [_ Hf].
  apply has_label_In in Hin. rewrite Hin in Hf. discriminate.
Qed.

Lemma list_string_eqb_eq (xs ys : list string) :
  list_string_eqb xs ys = true <-> xs = ys.
Proof.
  unfold list_string_eqb. destruct (list_eq_dec string_dec xs ys); split;
    intros H; auto; discriminate.
Qed.

(** C7.  When [concat] returns, the records of the merged table are those
    of the first table, in order, followed by those of the second, in
    order, every one of them kept; with the same header in both tables the
    rows themselves are stacked.  It returns whenever the two headers are
    the same or each has distinct labels, and raises in no other case. *)
Theorem merged_is_concatenation (a b : DataFrame) :
  (forall m, concat a b = inr m ->
             records m = records a ++ records b /\
             nrows m = (nrows a + nrows b)%nat /\
             (columns a = columns b -> rows m = rows a ++ rows b)) /\
  (columns a = columns b \/
   (distinct_labels (columns a) = true /\ distinct_labels (columns b) = true) ->
   exists m, concat a b = inr m) /\
  (forall e, concat a b = inl e ->
             columns a <> columns b /\
             distinct_labels (columns a) && distinct_labels (columns b) = false).
Proof.
  unfold concat.
  destruct (list_string_eqb (columns a) (columns b)) eqn:Eeq.
  - apply list_string_eqb_eq in Eeq. split; [| split].
    + intros m [= <-]. unfold records, nrows. simpl.
      rewrite map_app, length_app, <- Eeq. auto.
    + eauto.
    + discriminate.
  - assert (Hne : columns a <> columns b).
    { intros E. apply list_string_eqb_eq in E. congruence. }
    destruct (distinct_labels (columns a) && distinct_labels (columns b)) eqn:Ed.
    + apply andb_true_iff in Ed. destruct Ed as [Ha Hb].
      split; [| split]; [| eauto | discriminate].
      intros m [= <-]. unfold records, nrows. simpl.
      rewrite map_app, !map_map, length_app, !length_map.
      split; [| split; [reflexivity | congruence]].
      pose proof (aligned_labels_distinct _ _ Ha Hb) as Hd.
      f_equal; apply map_ext; intros r; apply record_of_realign; auto.
      * intros x Hx. apply in_or_app. now left.
      * intros x Hx. apply in_or_app.
        destruct (has_label x (columns a)) eqn:Hx'.
        -- left. now apply has_label_In.
        -- right. apply filter_In. rewrite Hx'. auto.
    + split; [discriminate | split].
      * intros [E | [Ha Hb]]; [congruence |].
        rewrite Ha, Hb in Ed. discriminate.
      * intros e _. auto.
Qed.

Lemma merged_is_concatenation_witness :
  (exists m, concat dataset_a dataset_b = inr m) /\
  records merged_ab = records dataset_a ++ records dataset_b /\
  nrows merged_ab = (nrows dataset_a + nrows dataset_b)%nat /\
  (columns dataset_a = columns dataset_b ->
   rows merged_ab = rows dataset_a ++ rows dataset_b).
Proof.
  destruct (merged_is_concatenation dataset_a dataset_b) as [Hm [Hex _]].
  split.
  - apply Hex. left. reflexivity.
  - apply Hm. reflexivity.
Defined.

Lemma positions_from_app (n : nat) (c : string) (xs ys : list string) :
  positions_from n c (xs ++ ys) =
  positions_from n c xs ++ positions_from (n + List.length xs) c ys.
Proof.
  revert n. induction xs as [| x xs IH]; intros n; simpl.
  - now rewrite Nat.add_0_r.
  - rewrite IH, Nat.add_succ_r. simpl. destruct (String.eqb x c); reflexivity.
Qed.

Lemma loaded_sexe_unique (env : Env) (filename : string) (d : DataFrame) :
  fst (load_csv_file env filename) = Ret d ->
  exists i, select "Sexe" (columns d) = Unique i.
Proof.
  intros H. apply load_csv_file_shape in H.
  destruct H as [t [i [_ [_ [_ [Hs ->]]]]]]. exists i. exact Hs.
Qed.

(** The merged dataset of [main] has one column [Sexe], so that the
    selections of lines 139 and 140 pick rows. *)
Lemma merged_sexe_unique (env : Env) (fa fb : string) (a b m : DataFrame) :
  fst (load_csv_file env fa) = Ret a ->
  fst (load_csv_file env fb) = Ret b ->
  concat a b = inr m ->
  exists i, select "Sexe" (columns m) = Unique i.
Proof.
  intros Ha Hb Hm.
  destruct (loaded_sexe_unique env fa a Ha) as [i Hi]. exists i.
  unfold concat in Hm.
  destruct (list_string_eqb (columns a) (columns b)).
  - injection Hm as <-. exact Hi.
  - destruct (distinct_labels (columns a) && distinct_labels (columns b));
      [| discriminate].
    injection Hm as <-. simpl.
    apply select_unique. apply select_unique in Hi.
    unfold positions in *. rewrite positions_from_app, Hi.
    replace (positions_from _ "Sexe" _) with (@nil nat); [reflexivity |].
    symmetry. apply positions_from_nil_iff. apply not_true_iff_false.
    rewrite has_label_In, filter_In. intros [_ Hf].
    assert (Hin : has_label "Sexe" (columns a) = true).
    { apply not_false_iff_true. intros Hn.
      apply (positions_from_nil_iff 0) in Hn. rewrite Hi in Hn. discriminate. }
    rewrite Hin in Hf. discriminate.
Qed.

(** ** The run *)

Lemma bind_returned {A B} (m : M A) (f : A -> M B) (a : A) :
  fst m = Ret a -> bind m f = (fst (f a), snd m ++ snd (f a)).
Proof.
  destruct m as [r t]. simpl. intros ->. destruct (f a); reflexivity.
Qed.

Lemma try_unit_returns (m : M unit) (h : exn -> M unit) :
  never_exits m -> (forall e, fst (h e) = Ret tt) ->
  fst (try_except m h) = Ret tt.
Proof.
  intros Hm Hh. destruct (try_except_returns m h Hm) as [[] H]; [| exact H].
  intros e. exists tt. apply Hh.
Qed.

Lemma export_merged_returns (env : Env) (m : DataFrame) :
  fst (export_merged env m) = Ret tt.
Proof.
  apply try_unit_returns.
  - no_exit.
  - intros e. destruct e; reflexivity.
Qed.

Lemma export_merged_failed (env : Env) (m : DataFrame) (e : exn) :
  write_outcome env "Prenoms2003-2004.csv" m = Some e ->
  export_merged env m = (Ret tt, [LogError (merged_export_message e)]).
Proof.
  intros H. unfold export_merged, to_csv. rewrite H. destruct e; reflexivity.
Qed.

Lemma report_by_gender_returns (env : Env) (m : DataFrame) :
  fst (report_by_gender env m) = Ret tt.
Proof.
  apply try_unit_returns; [| reflexivity].
  no_exit.
Qed.

Lemma export_grouped_returns (env : Env) (m : DataFrame) :
  fst (export_grouped env m) = Ret tt.
Proof.
  apply try_unit_returns.
  - no_exit.
  - intros e. destruct e; reflexivity.
Qed.

Lemma export_grouped_failed (env : Env) (m : DataFrame) (g : grouped) (e : exn) :
  groupby_sum "Prenom" "Nombre" m = inr g ->
  write_outcome env "Prenoms2003-2004_Jointure.csv"
                (reset_index "Prenom" "Nombre" g) = Some e ->
  export_grouped env m = (Ret tt, [LogError (grouped_export_message e)]).
Proof.
  intros Hg H. unfold export_grouped, to_csv. rewrite Hg. simpl. rewrite H.
  destruct e; reflexivity.
Qed.

Lemma process_top_names_returns (env : Env) (df : DataFrame) (year top_n : Z) :
  exists s, fst (process_top_names env df year top_n) = Ret s.
Proof.
  apply try_except_returns.
  - apply never_exits_top_names_body.
  - intros e. exists empty_series. reflexivity.
Qed.

(** The reports and the second export run to their end, and their events
    are those of the four steps, in order. *)
Lemma reports_and_grouped_export_eq (env : Env) (a b m : DataFrame) :
  reports_and_grouped_export env a b m =
  (Ret tt,
   trace (process_top_names env a 2003 10)
     ++ trace (process_top_names env b 2004 10)
     ++ trace (report_by_gender env m)
     ++ trace (export_grouped env m)).
Proof.
  unfold reports_and_grouped_export, trace.
  destruct (process_top_names_returns env a 2003 10) as [sa Ha].
  destruct (process_top_names_returns env b 2004 10) as [sb Hb].
  rewrite (bind_returned _ _ sa Ha).
  rewrite (bind_returned _ _ sb Hb). simpl.
  rewrite (bind_returned _ _ tt (report_by_gender_returns env m)). simpl.
  rewrite export_grouped_returns. reflexivity.
Qed.

Lemma after_merge_eq (env : Env) (a b m : DataFrame) :
  after_merge env a b m =
  (Ret tt,
   trace (export_merged env m) ++ trace (reports_and_grouped_export env a b m)).
Proof.
  unfold after_merge.
  rewrite (bind_returned _ _ tt (export_merged_returns env m)).
  rewrite reports_and_grouped_export_eq. reflexivity.
Qed.

Lemma main_after_loads (env : Env) (a b m : DataFrame) (ta tb : list Event) :
  load_csv_file env "Prenoms2003.csv" = (Ret a, ta) ->
  load_csv_file env "Prenoms2004.csv" = (Ret b, tb) ->
  concat a b = inr m ->
  main env =
  (Ret tt,
   ta ++ tb ++ trace (export_merged env m)
      ++ trace (reports_and_grouped_export env a b m)).
Proof.
  intros Ha Hb Hm. unfold main.
  rewrite Ha. cbn [bind]. rewrite Hb. cbn [bind]. rewrite Hm. cbn [bind lift ret].
  rewrite after_merge_eq. reflexivity.
Qed.

Lemma print_ranking_eq (env : Env) (lbl : label) (i : nat)
      (items : list (value * value)) :
  print_ranking env lbl i items =
  (match snd (print_until_failure env (report_lines lbl i items)) with
   | Some e => Raise e
   | None => Ret tt
   end,
   fst (print_until_failure env (report_lines lbl i items))).
Proof.
  revert i. induction items as [| [prenom occurrence] rest IH]; intros i;
    [reflexivity |].
  cbn [print_ranking report_lines print_until_failure]. unfold print.
  destruct (print_outcome env (mkLine lbl i prenom occurrence)) as [e |];
    [reflexivity |].
  cbn [bind emit]. rewrite IH.
  destruct (print_until_failure env (report_lines lbl (S i) rest))
    as [evs [e |]]; reflexivity.
Qed.

Lemma process_top_names_trace (env : Env) (df : DataFrame) (year : Z) :
  trace (process_top_names env df year 10) = yearly_report_events env year df.
Proof.
  unfold process_top_names, top_names_body, yearly_report_events, trace.
  destruct (top_names_of df 10) as [e | s]; [reflexivity |].
  cbn [lift ret bind logging_info emit]. rewrite print_ranking_eq.
  destruct (print_until_failure env
              (report_lines (YearLabel year) 1 (s_items s))) as [evs [e |]];
    simpl; rewrite ?app_nil_r; reflexivity.
Qed.

Lemma report_by_gender_trace (env : Env) (m : DataFrame) :
  trace (report_by_gender env m) = gender_report_events env m.
Proof.
  unfold report_by_gender, gender_report_events, trace.
  destruct (top_by_sex "F" m) as [e | filles]; [reflexivity |].
  destruct (top_by_sex "M" m) as [e | garcons]; [reflexivity |].
  cbn [lift ret bind logging_info emit]. rewrite !print_ranking_eq.
  destruct (print_until_failure env
              (report_lines GirlLabel 1 (s_items filles))) as [evs_f [e |]];
    [simpl; reflexivity |].
  destruct (print_until_failure env
              (report_lines BoyLabel 1 (s_items garcons))) as [evs_g [e |]];
    simpl; rewrite ?app_nil_r, <- ?app_assoc; reflexivity.
Qed.

Lemma export_grouped_trace (env : Env) (m : DataFrame) :
  trace (export_grouped env m) = grouped_export_events env m.
Proof.
  unfold export_grouped, grouped_export_events, to_csv, trace.
  destruct (groupby_sum "Prenom" "Nombre" m) as [e | g]; simpl.
  - destruct e; reflexivity.
  - destruct (write_outcome env "Prenoms2003-2004_Jointure.csv"
                            (reset_index "Prenom" "Nombre" g)) as [e |]; simpl.
    + destruct e; reflexivity.
    + reflexivity.
Qed.

(** C8.  Once both files are loaded and merged, the run ends with status
    0 whatever the two exports do.  When writing the merged file raises, the
    error is logged and the run goes on with every remaining step, each one
    carried out in full: the report of 2003, the report of 2004, the report
    by sex (girls, then boys) and the export of the grouped sums; the events
    of the run after the error record are, in this order, the header and
    ranked lines of each report (or the error a report logs when its ranking
    or a line fails) and the grouped file with its success record (or the
    error that export logs).  When writing the grouped file raises, the
    error is logged as the last event of the run. *)
Theorem export_failure_not_fatal
        (env : Env) (a b m : DataFrame) (ta tb : list Event) :
  load_csv_file env "Prenoms2003.csv" = (Ret a, ta) ->
  load_csv_file env "Prenoms2004.csv" = (Ret b, tb) ->
  concat a b = inr m ->
  exit_status (main env) = 0 /\
  fst (reports_and_grouped_export env a b m) = Ret tt /\
  (forall e,
      write_outcome env "Prenoms2003-2004.csv" m = Some e ->
      trace (main env) =
      ta ++ tb ++ [LogError (merged_export_message e)]
         ++ trace (reports_and_grouped_export env a b m)) /\
  (forall e,
      write_outcome env "Prenoms2003-2004.csv" m = Some e ->
      trace (main env) =
      ta ++ tb ++ [LogError (merged_export_message e)]
         ++ yearly_report_events env 2003 a
         ++ yearly_report_events env 2004 b
         ++ gender_report_events env m
         ++ grouped_export_events env m) /\
  (forall g e,
      groupby_sum "Prenom" "Nombre" m = inr g ->
      write_outcome env "Prenoms2003-2004_Jointure.csv"
                    (reset_index "Prenom" "Nombre" g) = Some e ->
      exists before,
        trace (main env) = before ++ [LogError (grouped_export_message e)]).
Proof.
  intros Ha Hb Hm.
  rewrite (main_after_loads env a b m ta tb Ha Hb Hm).
  split; [reflexivity |].
  split; [rewrite reports_and_grouped_export_eq; reflexivity |].
  split; [| split].
  - intros e He. unfold trace at 1. simpl.
    rewrite (export_merged_failed env m e He). reflexivity.
  - intros e He. unfold trace at 1. simpl.
    rewrite (export_merged_failed env m e He).
    rewrite reports_and_grouped_export_eq.
    rewrite !process_top_names_trace, report_by_gender_trace, export_grouped_trace.
    reflexivity.
  - intros g e Hg He. unfold trace at 1. simpl.
    rewrite reports_and_grouped_export_eq.
    rewrite (export_grouped_failed env m g e Hg He). unfold trace. simpl.
    exists (ta ++ tb ++ snd (export_merged env m)
               ++ snd (process_top_names env a 2003 10)
               ++ snd (process_top_names env b 2004 10)
               ++ snd (report_by_gender env m)).
    rewrite <- !app_assoc. reflexivity.
Qed.

Lemma export_failure_not_fatal_witness :
  exit_status (main read_only_scenario) = 0 /\
  trace (main read_only_scenario) =
    snd (load_csv_file read_only_scenario "Prenoms2003.csv")
    ++ snd (load_csv_file read_only_scenario "Prenoms2004.csv")
    ++ [LogError PermissionDeniedMerged]
    ++ trace (reports_and_grouped_export read_only_scenario
                dataset_a dataset_b merged_ab) /\
  trace (main read_only_scenario) =
    snd (load_csv_file read_only_scenario "Prenoms2003.csv")
    ++ snd (load_csv_file read_only_scenario "Prenoms2004.csv")
    ++ [LogError PermissionDeniedMerged;
        LogInfo (TopHeader 10 2003);
        Print (mkLine (YearLabel 2003) 1 (VStr "Marie") (VInt 7));
        Print (mkLine (YearLabel 2003) 2 (VStr "Jean") (VInt 5));
        LogInfo (TopHeader 10 2004);
        Print (mkLine (YearLabel 2004) 1 (VStr "Jean") (VInt 3));
        LogInfo TopGirlsHeader;
        Print (mkLine GirlLabel 1 (VStr "Marie") (VInt 7));
        LogInfo TopBoysHeader;
        Print (mkLine BoyLabel 1 (VStr "Jean") (VInt 8));
        LogError PermissionDeniedGrouped] /\
  exists before,
    trace (main read_only_scenario) = before ++ [LogError PermissionDeniedGrouped].
Proof.
  destruct (export_failure_not_fatal read_only_scenario
              dataset_a dataset_b merged_ab
              (snd (load_csv_file read_only_scenario "Prenoms2003.csv"))
              (snd (load_csv_file read_only_scenario "Prenoms2004.csv"))
              eq_refl eq_refl eq_refl)
    as [Hexit [_ [Hmerged [Hsteps Hgrouped]]]].
  split; [exact Hexit |]. split; [| split].
  - exact (Hmerged PermissionError eq_refl).
  - exact (Hsteps PermissionError eq_refl).
  - exact (Hgrouped _ PermissionError eq_refl eq_refl).
Defined.

(** The scenario of the specification (§8): in the merged dataset Jean
    totals 8 and Marie 7; the first name overall is Jean, the first girl's
    name Marie, the first boy's name Jean; the run ends with status 0. *)
Example scenario_rankings :
  concat dataset_a dataset_b = inr merged_ab /\
  groupby_sum "Prenom" "Nombre" merged_ab =
    inr (GSeries Object
           (mkSeries Int64 [(VStr "Jean", VInt 8); (VStr "Marie", VInt 7)])) /\
  top_names_of merged_ab 1 = inr (mkSeries Int64 [(VStr "Jean", VInt 8)]) /\
  top_by_sex "F" merged_ab = inr (mkSeries Int64 [(VStr "Marie", VInt 7)]) /\
  top_by_sex "M" merged_ab = inr (mkSeries Int64 [(VStr "Jean", VInt 8)]) /\
  exit_status (main scenario) = 0.
Proof. repeat split; reflexivity. Qed.

(** * Further properties of the code *)

(** ** What a computation emits *)

Lemma emits_bind {A B} (P : Event -> Prop) (m : M A) (f : A -> M B) :
  emits P m -> (forall a, emits P (f a)) -> emits P (bind m f).
Proof.
  unfold emits. intros Hm Hf.
  destruct m as [[a | e | c] t]; simpl in *; try assumption.
  specialize (Hf a). destruct (f a) as [r t']. simpl in *.
  apply Forall_app. auto.
Qed.

Lemma emits_try_except {A} (P : Event -> Prop) (m : M A) (h : exn -> M A) :
  emits P m -> (forall e, emits P (h e)) -> emits P (try_except m h).
Proof.
  unfold emits. intros Hm Hh.
  destruct m as [[a | e | c] t]; simpl in *; try assumption.
  specialize (Hh e). destruct (h e) as [r t']. simpl in *.
  apply Forall_app. auto.
Qed.

Lemma emits_lift {A} (P : Event -> Prop) (r : exn + A) : emits P (lift r).
Proof. destruct r; constructor. Qed.

Lemma emits_ret {A} (P : Event -> Prop) (a : A) : emits P (ret a).
Proof. constructor. Qed.

Lemma emits_raise {A} (P : Event -> Prop) (e : exn) : emits P (@raise A e).
Proof. constructor. Qed.

Lemma emits_sys_exit {A} (P : Event -> Prop) (c : Z) : emits P (@sys_exit A c).
Proof. constructor. Qed.

Lemma emits_emit (P : Event -> Prop) (ev : Event) : P ev -> emits P (emit ev).
Proof. intros H. constructor; [exact H | constructor]. Qed.

(* the events of a sequence of steps, step by step *)
Ltac emits_steps :=
  repeat (cbv beta;
          first [ apply emits_lift | apply emits_ret | apply emits_raise
                | apply emits_sys_exit
                | apply emits_emit; reflexivity
                | apply emits_bind; [| intro]
                | apply emits_try_except; [| intro] ]).

Lemma forallb_is_log_emits {A} (m : M A) :
  forallb is_log (trace m) = true <-> emits (fun ev => is_log ev = true) m.
Proof. unfold emits, trace. rewrite forallb_forall, Forall_forall. tauto. Qed.

(** ** The loader: outcomes *)

Lemma load_handler_eq (filename : string) (e : exn) :
  load_handler filename e = (Exit 1, [LogError (load_error_message filename e)]).
Proof. destruct e; reflexivity. Qed.

Lemma never_exits_raise {A} (e : exn) : never_exits (@raise A e).
Proof. intros c. discriminate. Qed.

Lemma never_exits_try_except {A} (m : M A) (h : exn -> M A) :
  never_exits m -> (forall e, never_exits (h e)) -> never_exits (try_except m h).
Proof.
  unfold never_exits. intros Hm Hh c.
  destruct m as [[a | e | c'] t]; simpl.
  - discriminate.
  - specialize (Hh e c). destruct (h e) as [r t']. exact Hh.
  - exfalso. exact (Hm c' eq_refl).
Qed.

Lemma never_exits_check_columns (required cols : list string) :
  never_exits (check_columns required cols).
Proof. rewrite check_columns_eq. intros c. discriminate. Qed.

Lemma never_exits_load_body (env : Env) (filename : string) :
  never_exits (load_body env filename).
Proof.
  unfold load_body.
  apply never_exits_bind.
  { destruct (present (file env filename)); intros c; discriminate. }
  intros _. apply never_exits_bind; [apply never_exits_lift | intros line].
  apply never_exits_bind; [apply never_exits_emit | intros _].
  apply never_exits_bind.
  { unfold read_csv_strategies.
    apply never_exits_try_except; [apply never_exits_lift | intros e].
    apply never_exits_bind; [apply never_exits_emit | intros _].
    apply never_exits_try_except; [apply never_exits_lift | intros e2].
    apply never_exits_bind; [apply never_exits_emit | intros _].
    apply never_exits_raise. }
  intros t. unfold validate_and_decode.
  apply never_exits_bind; [apply never_exits_emit | intros _].
  apply never_exits_bind; [apply never_exits_emit | intros _].
  apply never_exits_bind; [apply never_exits_emit | intros _].
  apply never_exits_bind; [apply never_exits_check_columns | intros missing].
  apply never_exits_bind.
  { destruct missing; intros c; discriminate. }
  intros _. apply never_exits_bind.
  { unfold decode_sexe. destruct (select _ _); intros c; discriminate. }
  intros d. apply never_exits_bind; [apply never_exits_emit | intros _].
  apply never_exits_ret.
Qed.

Lemma emits_logs_load_body (env : Env) (filename : string) :
  emits (fun ev => is_log ev = true) (load_body env filename).
Proof.
  unfold load_body.
  apply emits_bind.
  { destruct (present (file env filename)); constructor. }
  intros _. apply emits_bind; [apply emits_lift | intros line].
  apply emits_bind; [apply emits_emit; reflexivity | intros _].
  apply emits_bind.
  { unfold read_csv_strategies, logging_error. emits_steps. }
  intros t. unfold validate_and_decode, logging_info.
  apply emits_bind; [apply emits_emit; reflexivity | intros _].
  apply emits_bind; [apply emits_emit; reflexivity | intros _].
  apply emits_bind; [apply emits_emit; reflexivity | intros _].
  apply emits_bind.
  { unfold emits. rewrite check_columns_eq. simpl.
    apply Forall_forall. intros ev Hev. apply in_map_iff in Hev.
    destruct Hev as [c [<- _]]. reflexivity. }
  intros missing. apply emits_bind.
  { destruct missing; constructor. }
  intros _. apply emits_bind.
  { unfold decode_sexe. destruct (select _ _); constructor. }
  intros d. emits_steps.
Qed.

Lemma load_csv_file_ret_or_exit (env : Env) (filename : string) :
  (exists d, fst (load_csv_file env filename) = Ret d) \/
  fst (load_csv_file env filename) = Exit 1.
Proof.
  unfold load_csv_file.
  pose proof (never_exits_load_body env filename) as Hne.
  destruct (load_body env filename) as [[d | e | c] t]; simpl.
  - left. eauto.
  - right. rewrite load_handler_eq. reflexivity.
  - exfalso. exact (Hne c eq_refl).
Qed.

Lemma load_csv_file_logs (env : Env) (filename : string) :
  emits (fun ev => is_log ev = true) (load_csv_file env filename).
Proof.
  unfold load_csv_file. apply emits_try_except.
  - apply emits_logs_load_body.
  - intros e. rewrite load_handler_eq. constructor; [reflexivity | constructor].
Qed.

(** X1.  [load_csv_file] never lets an exception reach its caller: it
    returns a dataset or ends the process, and then always with status 1.
    Whatever it does, it only logs: it prints no line and writes no file. *)
Theorem load_csv_file_outcomes (env : Env) (filename : string) :
  ((exists d, fst (load_csv_file env filename) = Ret d) \/
   fst (load_csv_file env filename) = Exit 1) /\
  forallb is_log (trace (load_csv_file env filename)) = true.
Proof.
  split.
  - apply load_csv_file_ret_or_exit.
  - apply forallb_is_log_emits, load_csv_file_logs.
Qed.

(** X2.  A file that does not exist, or that cannot be opened or read, ends
    the process with status 1 after a single error record; the parsers are
    not consulted, so the outcome is the same whatever they would return. *)
Theorem load_fails_before_parsing (env : Env) (filename : string) :
  (present (file env filename) = false ->
   load_csv_file env filename =
   (Exit 1, [LogError (FileNotFoundMsg (FileNotFoundError filename))])) /\
  (forall e,
      present (file env filename) = true ->
      first_line (file env filename) = inl e ->
      load_csv_file env filename =
      (Exit 1, [LogError (load_error_message filename e)])).
Proof.
  split.
  - intros Hp. unfold load_csv_file, load_body. rewrite Hp. reflexivity.
  - intros e Hp Hl. unfold load_csv_file, load_body. rewrite Hp, Hl. simpl.
    rewrite load_handler_eq. reflexivity.
Qed.

Lemma load_fails_before_parsing_witness :
  load_csv_file (one_source absent) "Prenoms2003.csv" =
  (Exit 1, [LogError (FileNotFoundMsg (FileNotFoundError "Prenoms2003.csv"))]).
Proof.
  apply (proj1 (load_fails_before_parsing (one_source absent) "Prenoms2003.csv")).
  reflexivity.
Defined.

Lemma load_csv_file_on_table (env : Env) (filename line : string)
      (t : DataFrame) (tr : list Event) :
  present (file env filename) = true ->
  first_line (file env filename) = inr line ->
  read_csv_strategies (file env filename) = (Ret t, tr) ->
  load_csv_file env filename =
  try_except (fst (validate_and_decode filename t),
              LogInfo (RawFirstLine line) :: tr
                ++ snd (validate_and_decode filename t))
             (load_handler filename).
Proof.
  intros Hp Hl Hr. unfold load_csv_file, load_body.
  rewrite Hp, Hl, Hr. simpl.
  destruct (validate_and_decode filename t) as [r tv]. reflexivity.
Qed.

(** X3.  When the strict parser fails and the Python engine returns a
    table, the load goes on with that table: its outcome is the one it has
    when the strict parser returns the table, and its trace is the same but
    for one error record, of the first failure, after the first-line
    record. *)
Theorem parse_fallback_used
        (env env' : Env) (filename line : string) (e1 : exn) (t : DataFrame) :
  present (file env filename) = true ->
  first_line (file env filename) = inr line ->
  parsed_c (file env filename) = inl e1 ->
  parsed_python (file env filename) = inr t ->
  present (file env' filename) = true ->
  first_line (file env' filename) = inr line ->
  parsed_c (file env' filename) = inr t ->
  fst (load_csv_file env filename) = fst (load_csv_file env' filename) /\
  trace (load_csv_file env filename) =
  LogInfo (RawFirstLine line) :: LogError (FirstParseFailed e1)
    :: tl (trace (load_csv_file env' filename)).
Proof.
  intros Hp Hl Hc Hpy Hp' Hl' Hc'.
  rewrite (load_csv_file_on_table env filename line t
             [LogError (FirstParseFailed e1)] Hp Hl).
  2: { unfold read_csv_strategies. rewrite Hc, Hpy. reflexivity. }
  rewrite (load_csv_file_on_table env' filename line t [] Hp' Hl').
  2: { unfold read_csv_strategies. rewrite Hc'. reflexivity. }
  unfold trace.
  destruct (validate_and_decode filename t) as [[d | e | c] tv]; simpl.
  - auto.
  - rewrite load_handler_eq. simpl. auto.
  - auto.
Qed.

Lemma parse_fallback_used_witness :
  fst (load_csv_file (one_source (strict_fails "sexe,prenom,nombre"
                                    (ParserError "bad line") table_a))
                     "Prenoms2003.csv") =
  fst (load_csv_file scenario "Prenoms2003.csv") /\
  trace (load_csv_file (one_source (strict_fails "sexe,prenom,nombre"
                                      (ParserError "bad line") table_a))
                       "Prenoms2003.csv") =
  LogInfo (RawFirstLine "sexe,prenom,nombre")
    :: LogError (FirstParseFailed (ParserError "bad line"))
    :: tl (trace (load_csv_file scenario "Prenoms2003.csv")).
Proof.
  apply (parse_fallback_used
           (one_source (strict_fails "sexe,prenom,nombre"
                          (ParserError "bad line") table_a))
           scenario "Prenoms2003.csv" "sexe,prenom,nombre"
           (ParserError "bad line") table_a); reflexivity.
Defined.

(** X4.  When both parsing strategies fail, the process ends with status 1;
    both failures are logged, and the exception that decides the final
    record is the second one, the first being kept in the log only. *)
Theorem parse_failure_twice
        (env : Env) (filename line : string) (e1 e2 : exn) :
  present (file env filename) = true ->
  first_line (file env filename) = inr line ->
  parsed_c (file env filename) = inl e1 ->
  parsed_python (file env filename) = inl e2 ->
  load_csv_file env filename =
  (Exit 1,
   [LogInfo (RawFirstLine line);
    LogError (FirstParseFailed e1);
    LogError (SecondParseFailed e2);
    LogError (load_error_message filename e2)]).
Proof.
  intros Hp Hl Hc Hpy. unfold load_csv_file, load_body, read_csv_strategies.
  rewrite Hp, Hl, Hc, Hpy. simpl. rewrite load_handler_eq. reflexivity.
Qed.

Lemma parse_failure_twice_witness :
  load_csv_file (one_source (unparsable "" (ParserError "bad line") EmptyDataError))
                "Prenoms2003.csv" =
  (Exit 1,
   [LogInfo (RawFirstLine "");
    LogError (FirstParseFailed (ParserError "bad line"));
    LogError (SecondParseFailed EmptyDataError);
    LogError (NoData "Prenoms2003.csv")]).
Proof.
  apply (parse_failure_twice
           (one_source (unparsable "" (ParserError "bad line") EmptyDataError))
           "Prenoms2003.csv" "" (ParserError "bad line") EmptyDataError);
    reflexivity.
Defined.

Lemma parses_to_unique (src : Source) (t t' : DataFrame) :
  parses_to src t -> parses_to src t' -> t = t'.
Proof.
  unfold parses_to.
  intros [H | [e [H1 H2]]] [H' | [e' [H1' H2']]]; congruence.
Qed.

Lemma load_body_ret_inv (env : Env) (filename : string) (d : DataFrame) :
  fst (load_body env filename) = Ret d ->
  present (file env filename) = true /\
  exists line, first_line (file env filename) = inr line.
Proof.
  unfold load_body.
  destruct (present (file env filename)); [| discriminate].
  destruct (first_line (file env filename)) as [e | line]; [discriminate |].
  eauto.
Qed.

(** X5.  A load returns a dataset exactly when the file exists, can be
    opened, is parsed by one of the two strategies into a table whose header
    has [sexe], [prenom] and [nombre], and renaming leaves a single column
    [Sexe]; the dataset is then that table, renamed, with its [Sexe] column
    decoded. *)
Theorem load_succeeds_iff (env : Env) (filename : string) (d : DataFrame) :
  fst (load_csv_file env filename) = Ret d <->
  present (file env filename) = true /\
  (exists line, first_line (file env filename) = inr line) /\
  exists t i,
    parses_to (file env filename) t /\
    missing_of (columns t) = [] /\
    select "Sexe" (columns (rename required_columns t)) = Unique i /\
    d = map_column i sex_decode (rename required_columns t).
Proof.
  split.
  - intros H.
    assert (Hb : fst (load_body env filename) = Ret d).
    { unfold load_csv_file in H. apply try_except_ret_inv in H.
      destruct H as [H | [e [_ H]]]; [exact H |].
      rewrite load_handler_exit in H. discriminate. }
    destruct (load_body_ret_inv env filename d Hb) as [Hp Hl].
    split; [exact Hp |]. split; [exact Hl |].
    apply load_csv_file_shape in H.
    destruct H as [t [i [Ht [Hm [_ [Hs ->]]]]]]. exists t, i. auto.
  - intros [Hp [[line Hl] [t [i [Ht [Hm [Hs ->]]]]]]].
    destruct (load_csv_file_parsed env filename line t Hp Hl Ht) as [tr Hb].
    rewrite (validate_and_decode_ok filename t i Hm Hs) in Hb.
    unfold load_csv_file. rewrite Hb. reflexivity.
Qed.

(** ** The run: outcomes *)

Lemma main_first_load_exit (env : Env) (c : Z) :
  fst (load_csv_file env "Prenoms2003.csv") = Exit c ->
  main env = (Exit c, trace (load_csv_file env "Prenoms2003.csv")).
Proof.
  intros H. unfold main, trace.
  destruct (load_csv_file env "Prenoms2003.csv") as [r t]. simpl in H. subst r.
  reflexivity.
Qed.

Lemma main_second_load_exit (env : Env) (a : DataFrame) (c : Z) :
  fst (load_csv_file env "Prenoms2003.csv") = Ret a ->
  fst (load_csv_file env "Prenoms2004.csv") = Exit c ->
  main env =
  (Exit c, trace (load_csv_file env "Prenoms2003.csv")
             ++ trace (load_csv_file env "Prenoms2004.csv")).
Proof.
  intros Ha Hb. unfold main, trace.
  destruct (load_csv_file env "Prenoms2003.csv") as [ra ta]. simpl in Ha. subst ra.
  cbn [bind].
  destruct (load_csv_file env "Prenoms2004.csv") as [rb tb]. simpl in Hb. subst rb.
  reflexivity.
Qed.

Lemma main_concat_fails (env : Env) (a b : DataFrame) (e : exn) :
  fst (load_csv_file env "Prenoms2003.csv") = Ret a ->
  fst (load_csv_file env "Prenoms2004.csv") = Ret b ->
  concat a b = inl e ->
  main env =
  (Exit 1, trace (load_csv_file env "Prenoms2003.csv")
             ++ trace (load_csv_file env "Prenoms2004.csv")
             ++ [LogError (MainUnexpected e)]).
Proof.
  intros Ha Hb Hc. unfold main, trace.
  destruct (load_csv_file env "Prenoms2003.csv") as [ra ta]. simpl in Ha. subst ra.
  cbn [bind].
  destruct (load_csv_file env "Prenoms2004.csv") as [rb tb]. simpl in Hb. subst rb.
  cbn [bind]. rewrite Hc. simpl. rewrite app_nil_r, <- app_assoc. reflexivity.
Qed.

Lemma main_merged (env : Env) (a b m : DataFrame) :
  fst (load_csv_file env "Prenoms2003.csv") = Ret a ->
  fst (load_csv_file env "Prenoms2004.csv") = Ret b ->
  concat a b = inr m ->
  main env =
  (Ret tt,
   trace (load_csv_file env "Prenoms2003.csv")
     ++ trace (load_csv_file env "Prenoms2004.csv")
     ++ trace (export_merged env m)
     ++ trace (reports_and_grouped_export env a b m)).
Proof.
  intros Ha Hb Hm. unfold trace.
  apply main_after_loads; [| | exact Hm].
  - destruct (load_csv_file env "Prenoms2003.csv"). simpl in Ha. now subst.
  - destruct (load_csv_file env "Prenoms2004.csv"). simpl in Hb. now subst.
Qed.

(** The four ways a run can go. *)
Lemma main_cases (env : Env) :
  (main env = (Exit 1, trace (load_csv_file env "Prenoms2003.csv"))) \/
  (main env = (Exit 1, trace (load_csv_file env "Prenoms2003.csv")
                         ++ trace (load_csv_file env "Prenoms2004.csv"))) \/
  (exists e,
      main env = (Exit 1, trace (load_csv_file env "Prenoms2003.csv")
                            ++ trace (load_csv_file env "Prenoms2004.csv")
                            ++ [LogError (MainUnexpected e)])) \/
  (exists a b m,
      fst (load_csv_file env "Prenoms2003.csv") = Ret a /\
      fst (load_csv_file env "Prenoms2004.csv") = Ret b /\
      concat a b = inr m /\
      main env =
      (Ret tt,
       trace (load_csv_file env "Prenoms2003.csv")
         ++ trace (load_csv_file env "Prenoms2004.csv")
         ++ trace (export_merged env m)
         ++ trace (reports_and_grouped_export env a b m))).
Proof.
  destruct (load_csv_file_ret_or_exit env "Prenoms2003.csv") as [[a Ha] | Ha].
  - destruct (load_csv_file_ret_or_exit env "Prenoms2004.csv") as [[b Hb] | Hb].
    + destruct (concat a b) as [e | m] eqn:Hc.
      * right; right; left. exists e. now apply (main_concat_fails env a b).
      * right; right; right. exists a, b, m.
        repeat split; auto. now apply main_merged.
    + right; left. now apply (main_second_load_exit env a).
  - left. now apply main_first_load_exit.
Qed.

(** X6.  [main] never lets an exception escape; the process ends with
    status 0 or 1, and with 0 exactly when both files load and their tables
    can be merged. *)
Theorem main_exit_status (env : Env) :
  (forall e, fst (main env) <> Raise e) /\
  (exit_status (main env) = 0 \/ exit_status (main env) = 1) /\
  (exit_status (main env) = 0 <->
   exists a b m,
     fst (load_csv_file env "Prenoms2003.csv") = Ret a /\
     fst (load_csv_file env "Prenoms2004.csv") = Ret b /\
     concat a b = inr m).
Proof.
  destruct (main_cases env) as [H | [H | [[e H] | [a [b [m [Ha [Hb [Hc H]]]]]]]]];
    rewrite H; unfold exit_status; simpl.
  1-3: split; [discriminate |]; split; [auto |]; split; [discriminate |];
       intros [a [b [m [Ha [Hb Hc]]]]];
       rewrite (main_merged env a b m Ha Hb Hc) in H; discriminate.
  split; [discriminate |]. split; [auto |]. split; [| reflexivity].
  intros _. exists a, b, m. auto.
Qed.

Lemma written_files_app (t1 t2 : list Event) :
  written_files (t1 ++ t2) = written_files t1 ++ written_files t2.
Proof. apply flat_map_app. Qed.

Lemma printed_lines_app (t1 t2 : list Event) :
  printed_lines (t1 ++ t2) = printed_lines t1 ++ printed_lines t2.
Proof. apply flat_map_app. Qed.

Lemma logs_write_nothing (t : list Event) :
  forallb is_log t = true -> written_files t = [] /\ printed_lines t = [].
Proof.
  induction t as [| ev t IH]; simpl; [auto |].
  rewrite andb_true_iff. intros [Hev Ht]. destruct (IH Ht) as [Hw Hp].
  destruct ev; try discriminate; simpl; auto.
Qed.

Lemma load_csv_file_only_logs (env : Env) (filename : string) :
  forallb is_log (trace (load_csv_file env filename)) = true.
Proof. apply forallb_is_log_emits, load_csv_file_logs. Qed.

(** X7.  A run that ends with status 1 has only logged: it has printed no
    report line and written no file. *)
Theorem failed_run_only_logs (env : Env) :
  exit_status (main env) = 1 ->
  forallb is_log (trace (main env)) = true /\
  written_files (trace (main env)) = [] /\
  printed_lines (trace (main env)) = [].
Proof.
  intros Hexit.
  assert (Hlogs : forallb is_log (trace (main env)) = true).
  { pose proof (load_csv_file_only_logs env "Prenoms2003.csv") as H3.
    pose proof (load_csv_file_only_logs env "Prenoms2004.csv") as H4.
    destruct (main_cases env) as [H | [H | [[e H] | [a [b [m [_ [_ [_ H]]]]]]]]];
      rewrite H in *; unfold trace at 1; simpl.
    - exact H3.
    - rewrite forallb_app, H3, H4. reflexivity.
    - rewrite !forallb_app, H3, H4. reflexivity.
    - discriminate. }
  split; [exact Hlogs |]. now apply logs_write_nothing.
Qed.

Lemma failed_run_only_logs_witness :
  forallb is_log (trace (main nothing_there)) = true /\
  written_files (trace (main nothing_there)) = [] /\
  printed_lines (trace (main nothing_there)) = [].
Proof.
  apply (failed_run_only_logs nothing_there). reflexivity.
Defined.

Lemma load_csv_file_depends_on_file (env env' : Env) (filename : string) :
  file env filename = file env' filename ->
  load_csv_file env filename = load_csv_file env' filename.
Proof.
  intros H. unfold load_csv_file, load_body. rewrite H. reflexivity.
Qed.

(** X8.  When the first file fails to load, the run stops there: its
    outcome and its trace are those of that load, whatever the second file
    holds and whatever writing and printing would do. *)
Theorem first_failure_stops_run (env env' : Env) :
  file env "Prenoms2003.csv" = file env' "Prenoms2003.csv" ->
  (forall a, fst (load_csv_file env "Prenoms2003.csv") <> Ret a) ->
  main env = (Exit 1, trace (load_csv_file env "Prenoms2003.csv")) /\
  main env' = main env.
Proof.
  intros Hfile Hfail.
  assert (Hexit : fst (load_csv_file env "Prenoms2003.csv") = Exit 1).
  { destruct (load_csv_file_ret_or_exit env "Prenoms2003.csv") as [[a Ha] | H];
      [exfalso; exact (Hfail a Ha) | exact H]. }
  rewrite (main_first_load_exit env 1 Hexit). split; [reflexivity |].
  rewrite (main_first_load_exit env' 1).
  - rewrite <- (load_csv_file_depends_on_file env env' _ Hfile). reflexivity.
  - rewrite <- (load_csv_file_depends_on_file env env' _ Hfile). exact Hexit.
Qed.

Lemma first_failure_stops_run_witness :
  main nothing_there =
    (Exit 1, trace (load_csv_file nothing_there "Prenoms2003.csv")) /\
  main (mkEnv (fun f => if String.eqb f "Prenoms2003.csv"
                        then absent
                        else readable "sexe,prenom,nombre" table_b)
              (fun _ _ => Some PermissionError) healthy_prints) =
  main nothing_there.
Proof.
  apply (first_failure_stops_run nothing_there).
  - reflexivity.
  - intros a H. discriminate H.
Defined.

(** ** The run: what is written *)

Lemma emits_print (P : Event -> Prop) (env : Env) (l : report_line) :
  P (Print l) -> emits P (print env l).
Proof.
  intros H. unfold print. destruct (print_outcome env l).
  - constructor.
  - now apply emits_emit.
Qed.

Lemma emits_print_ranking (P : Event -> Prop) (env : Env) (lbl : label) (i : nat)
      (items : list (value * value)) :
  (forall l, P (Print l)) -> emits P (print_ranking env lbl i items).
Proof.
  intros HP. revert i.
  induction items as [| [prenom occurrence] rest IH]; intros i; simpl.
  - constructor.
  - apply emits_bind; [now apply emits_print | intros _; apply IH].
Qed.

Lemma process_top_names_no_write (env : Env) (df : DataFrame) (year top_n : Z) :
  emits (fun ev => is_write ev = false) (process_top_names env df year top_n).
Proof.
  unfold process_top_names, top_names_body, logging_info, logging_error.
  apply emits_try_except; [| intros e; emits_steps].
  apply emits_bind; [apply emits_lift | intros s].
  apply emits_bind; [apply emits_emit; reflexivity | intros _].
  apply emits_bind; [apply emits_print_ranking; reflexivity | intros _].
  apply emits_ret.
Qed.

Lemma report_by_gender_no_write (env : Env) (m : DataFrame) :
  emits (fun ev => is_write ev = false) (report_by_gender env m).
Proof.
  unfold report_by_gender, logging_info, logging_error.
  apply emits_try_except; [| intros e; emits_steps].
  apply emits_bind; [apply emits_lift | intros filles].
  apply emits_bind; [apply emits_lift | intros garcons].
  apply emits_bind; [apply emits_emit; reflexivity | intros _].
  apply emits_bind; [apply emits_print_ranking; reflexivity | intros _].
  apply emits_bind; [apply emits_emit; reflexivity | intros _].
  apply emits_print_ranking; reflexivity.
Qed.

Lemma no_write_filter {A} (m : M A) :
  emits (fun ev => is_write ev = false) m -> filter is_write (trace m) = [].
Proof.
  unfold emits, trace. induction 1 as [| ev t Hev _ IH]; simpl; [reflexivity |].
  rewrite Hev. exact IH.
Qed.

Lemma logs_filter_write (t : list Event) :
  forallb is_log t = true -> filter is_write t = [].
Proof.
  induction t as [| ev t IH]; simpl; [reflexivity |].
  rewrite andb_true_iff. intros [Hev Ht].
  destruct ev; try discriminate; simpl; auto.
Qed.

Lemma export_merged_writes (env : Env) (m : DataFrame) :
  filter is_write (trace (export_merged env m)) = merged_write env m.
Proof.
  unfold export_merged, merged_write, to_csv, trace.
  destruct (write_outcome env "Prenoms2003-2004.csv" m) as [e |]; simpl.
  - destruct e; reflexivity.
  - reflexivity.
Qed.

Lemma export_grouped_writes (env : Env) (m : DataFrame) :
  filter is_write (trace (export_grouped env m)) = grouped_write env m.
Proof.
  unfold export_grouped, grouped_write, to_csv, trace.
  destruct (groupby_sum "Prenom" "Nombre" m) as [e | g]; simpl.
  - destruct e; reflexivity.
  - destruct (write_outcome env "Prenoms2003-2004_Jointure.csv"
                            (reset_index "Prenom" "Nombre" g)) as [e |]; simpl.
    + destruct e; reflexivity.
    + reflexivity.
Qed.

Lemma files_written_by_run_eq (env : Env) (a b m : DataFrame) :
  fst (load_csv_file env "Prenoms2003.csv") = Ret a ->
  fst (load_csv_file env "Prenoms2004.csv") = Ret b ->
  concat a b = inr m ->
  filter is_write (trace (main env)) = merged_write env m ++ grouped_write env m.
Proof.
  intros Ha Hb Hm.
  rewrite (main_merged env a b m Ha Hb Hm).
  rewrite reports_and_grouped_export_eq.
  pose proof (logs_filter_write _ (load_csv_file_only_logs env "Prenoms2003.csv")) as H3.
  pose proof (logs_filter_write _ (load_csv_file_only_logs env "Prenoms2004.csv")) as H4.
  pose proof (export_merged_writes env m) as Hm1.
  pose proof (export_grouped_writes env m) as Hm2.
  pose proof (no_write_filter _ (process_top_names_no_write env a 2003 10)) as Hp3.
  pose proof (no_write_filter _ (process_top_names_no_write env b 2004 10)) as Hp4.
  pose proof (no_write_filter _ (report_by_gender_no_write env m)) as Hg.
  unfold trace in *. simpl snd.
  rewrite !filter_app, H3, H4, Hm1, Hm2, Hp3, Hp4, Hg. reflexivity.
Qed.

(** X9.  After both loads and the merge, the CSV exports of the run (its
    [to_csv] calls that go through) are the merged table to
    [Prenoms2003-2004.csv], when that write goes through, and then the
    grouped table, keys first, to [Prenoms2003-2004_Jointure.csv], when the
    grouped sum is computed and that write goes through; both with separator
    [;], each at most once, and no other CSV export. *)
Theorem files_written_by_run (env : Env) (a b m : DataFrame) :
  fst (load_csv_file env "Prenoms2003.csv") = Ret a ->
  fst (load_csv_file env "Prenoms2004.csv") = Ret b ->
  concat a b = inr m ->
  filter is_write (trace (main env)) = merged_write env m ++ grouped_write env m.
Proof. exact (files_written_by_run_eq env a b m). Qed.

Lemma files_written_by_run_witness :
  filter is_write (trace (main scenario)) =
  merged_write scenario merged_ab ++ grouped_write scenario merged_ab.
Proof.
  apply (files_written_by_run scenario dataset_a dataset_b merged_ab);
    reflexivity.
Defined.

Lemma written_files_filter (t : list Event) :
  written_files (filter is_write t) = written_files t.
Proof.
  induction t as [| ev t IH]; simpl; [reflexivity |].
  destruct ev; simpl; auto. now rewrite IH.
Qed.

Lemma main_csv_exports (env : Env) :
  exists w1 w2,
    written_files (trace (main env)) = w1 ++ w2 /\
    (w1 = [] \/ w1 = [("Prenoms2003-2004.csv", ";")]) /\
    (w2 = [] \/ w2 = [("Prenoms2003-2004_Jointure.csv", ";")]).
Proof.
  destruct (main_cases env) as [H | [H | [[e H] | [a [b [m [Ha [Hb [Hm _]]]]]]]]].
  4: { rewrite <- written_files_filter.
    rewrite (files_written_by_run_eq env a b m Ha Hb Hm).
    exists (written_files (merged_write env m)),
           (written_files (grouped_write env m)).
    split; [apply written_files_app |]. split.
    + unfold merged_write. destruct (write_outcome _ _ _); simpl; auto.
    + unfold grouped_write. destruct (groupby_sum _ _ _); simpl; auto.
      destruct (write_outcome _ _ _); simpl; auto. }
  all: exists [], []; split; [| auto]; rewrite H;
    pose proof (proj1 (logs_write_nothing _
                  (load_csv_file_only_logs env "Prenoms2003.csv"))) as H3;
    pose proof (proj1 (logs_write_nothing _
                  (load_csv_file_only_logs env "Prenoms2004.csv"))) as H4;
    unfold trace in *; simpl snd;
    rewrite ?written_files_app, ?H3, ?H4; reflexivity.
Qed.

Lemma paths_written_cases (t : list Event) (p : string) :
  In p (paths_written t) -> p = log_file \/ In p (map fst (written_files t)).
Proof.
  induction t as [| ev t IH]; simpl; [tauto |].
  rewrite in_app_iff. intros [H | H].
  - destruct ev; simpl in H.
    + destruct H as [<- | []]. now left.
    + destruct H as [<- | []]. now left.
    + destruct H.
    + destruct H as [<- | []]. right. simpl. now left.
  - destruct (IH H) as [E | Hin]; [auto |].
    right. destruct ev; simpl; auto.
Qed.

(** X10.  The only paths a run writes to are the log file
    [prenoms_processing.log], to which its log records go, and the two
    output files; in particular the input files are never written to.  Its
    CSV exports are at most one to each output file, the merged file before
    the grouped one, always with separator [;]. *)
Theorem main_writes_only_outputs (env : Env) :
  (forall p, In p (paths_written (trace (main env))) ->
             p = log_file \/ p = "Prenoms2003-2004.csv" \/
             p = "Prenoms2003-2004_Jointure.csv") /\
  (In "Prenoms2003.csv" (paths_written (trace (main env))) -> False) /\
  (In "Prenoms2004.csv" (paths_written (trace (main env))) -> False) /\
  exists w1 w2,
    written_files (trace (main env)) = w1 ++ w2 /\
    (w1 = [] \/ w1 = [("Prenoms2003-2004.csv", ";")]) /\
    (w2 = [] \/ w2 = [("Prenoms2003-2004_Jointure.csv", ";")]).
Proof.
  assert (Hpaths : forall p, In p (paths_written (trace (main env))) ->
             p = log_file \/ p = "Prenoms2003-2004.csv" \/
             p = "Prenoms2003-2004_Jointure.csv").
  { intros p Hp. apply paths_written_cases in Hp.
    destruct Hp as [E | Hin]; [auto |].
    destruct (main_csv_exports env) as [w1 [w2 [E [H1 H2]]]].
    rewrite E, map_app, in_app_iff in Hin.
    destruct Hin as [Hin | Hin].
    - destruct H1 as [-> | ->]; simpl in Hin; [tauto |].
      destruct Hin as [<- | []]. auto.
    - destruct H2 as [-> | ->]; simpl in Hin; [tauto |].
      destruct Hin as [<- | []]. auto. }
  split; [exact Hpaths |]. split; [| split; [| apply main_csv_exports]].
  - intros H. destruct (Hpaths _ H) as [E | [E | E]]; discriminate E.
  - intros H. destruct (Hpaths _ H) as [E | [E | E]]; discriminate E.
Qed.

(** X11.  Two files with the same header always merge: once both are
    loaded, the merged table has the header of the first dataset and the
    rows of the first followed by the rows of the second, and the run ends
    with status 0. *)
Theorem same_header_always_merges (env : Env) (a b t1 t2 : DataFrame) :
  fst (load_csv_file env "Prenoms2003.csv") = Ret a ->
  fst (load_csv_file env "Prenoms2004.csv") = Ret b ->
  parses_to (file env "Prenoms2003.csv") t1 ->
  parses_to (file env "Prenoms2004.csv") t2 ->
  columns t1 = columns t2 ->
  concat a b =
    inr (mkDF (columns a) (zip_dtypes (dtypes a) (dtypes b)) (rows a ++ rows b)) /\
  exit_status (main env) = 0.
Proof.
  intros Ha Hb Ht1 Ht2 Hcols.
  assert (Hc : concat a b =
               inr (mkDF (columns a) (zip_dtypes (dtypes a) (dtypes b))
                         (rows a ++ rows b))).
  { pose proof (load_csv_file_shape env _ a Ha) as [ta [i [Hpa [_ [_ [_ Ea]]]]]].
    pose proof (load_csv_file_shape env _ b Hb) as [tb [j [Hpb [_ [_ [_ Eb]]]]]].
    rewrite (parses_to_unique _ _ _ Hpa Ht1) in Ea.
    rewrite (parses_to_unique _ _ _ Hpb Ht2) in Eb.
    assert (E : columns a = columns b).
    { rewrite Ea, Eb. simpl. now rewrite Hcols. }
    unfold concat. apply list_string_eqb_eq in E. rewrite E. reflexivity. }
  split; [exact Hc |].
  rewrite (main_merged env a b _ Ha Hb Hc). reflexivity.
Qed.

Lemma same_header_always_merges_witness :
  concat dataset_a dataset_b =
    inr (mkDF (columns dataset_a)
              (zip_dtypes (dtypes dataset_a) (dtypes dataset_b))
              (rows dataset_a ++ rows dataset_b)) /\
  exit_status (main scenario) = 0.
Proof.
  apply (same_header_always_merges scenario dataset_a dataset_b table_a table_b).
  - reflexivity.
  - reflexivity.
  - left. reflexivity.
  - left. reflexivity.
  - reflexivity.
Defined.

(** ** The ranking: what it holds *)

Lemma insert_desc_perm (x : value * value) (l : list (value * value)) :
  Permutation (x :: l) (insert_desc x l).
Proof.
  induction l as [| y l IH]; simpl; [reflexivity |].
  destruct (num_of (snd y) <=? num_of (snd x)); [reflexivity |].
  eapply perm_trans; [apply perm_swap |]. now apply perm_skip.
Qed.

Lemma sort_desc_perm (l : list (value * value)) : Permutation l (sort_desc l).
Proof.
  induction l as [| x l IH]; simpl; [constructor |].
  eapply perm_trans; [apply perm_skip, IH |]. apply insert_desc_perm.
Qed.

Lemma descending_app (l1 l2 : list (value * value)) :
  descending (l1 ++ l2) ->
  forall x y, In x l1 -> In y l2 -> num_of (snd y) <= num_of (snd x).
Proof.
  unfold descending.
  induction l1 as [| z l1 IH]; simpl; intros Hs x y Hx Hy; [destruct Hx |].
  inversion Hs as [| ? ? Hs' Hall]; subst.
  destruct Hx as [<- | Hx].
  - rewrite Forall_forall in Hall.
    specialize (Hall y (in_or_app _ _ _ (or_intror Hy))). simpl in Hall. lia.
  - exact (IH Hs' x y Hx Hy).
Qed.

Lemma filter_all {A} (f : A -> bool) (l : list A) :
  Forall (fun x => f x = true) l -> filter f l = l.
Proof.
  intros H. apply forallb_filter_id, forallb_forall.
  now apply Forall_forall.
Qed.

(** X12.  When line 104 returns, its Series holds entries of the grouped
    sum, each name with its total: together with the entries left out they
    make up the grouped sum.  No entry left out has a greater total than an
    entry kept, and entries are left out only when [top_n] were kept (or
    [top_n] is not positive). *)
Theorem ranking_keeps_greatest (df : DataFrame) (top_n : Z) (s : Series) :
  top_names_of df top_n = inr s ->
  exists idx sg rest,
    groupby_sum "Prenom" "Nombre" df = inr (GSeries idx sg) /\
    Permutation (s_items sg) (s_items s ++ rest) /\
    (forall x y, In x (s_items s) -> In y rest ->
                 num_of (snd y) <= num_of (snd x)) /\
    (rest <> [] -> Z.of_nat (List.length (s_items s)) = Z.max 0 top_n).
Proof.
  unfold top_names_of, and_then.
  destruct (groupby_sum "Prenom" "Nombre" df) as [e | g] eqn:Eg; [discriminate |].
  intros Hn.
  pose proof (nlargest_inv _ _ _ Hn) as [idx [sg [-> Hitems]]].
  assert (Hd : s_dtype sg <> Object).
  { simpl in Hn. intros E. rewrite E in Hn. discriminate. }
  pose proof (groupby_sum_totals _ _ _ _ _ Eg Hd) as Hints.
  assert (Hf : filter (fun kv => negb (is_nan (snd kv))) (s_items sg) = s_items sg).
  { apply filter_all. eapply Forall_impl; [| exact Hints].
    intros kv [z Hz]. rewrite Hz. reflexivity. }
  rewrite Hf in Hitems.
  exists idx, sg.
  destruct (Z.leb_spec top_n 0) as [Hle | Hgt].
  - exists (s_items sg). rewrite Hitems. simpl.
    repeat split; auto.
    + intros x y [].
    + intros _. lia.
  - exists (skipn (Z.to_nat top_n) (sort_desc (s_items sg))).
    rewrite Hitems. split; [reflexivity |]. split; [| split].
    + rewrite firstn_skipn. apply sort_desc_perm.
    + apply descending_app. rewrite firstn_skipn. apply sort_desc_descending.
    + intros Hrest. rewrite length_firstn.
      assert (Z.to_nat top_n < List.length (sort_desc (s_items sg)))%nat.
      { destruct (Nat.lt_ge_cases (Z.to_nat top_n)
                    (List.length (sort_desc (s_items sg)))) as [H | H]; [exact H |].
        exfalso. apply Hrest. now apply skipn_all2. }
      lia.
Qed.

Lemma ranking_keeps_greatest_witness :
  exists idx sg rest,
    groupby_sum "Prenom" "Nombre" merged_ab = inr (GSeries idx sg) /\
    Permutation (s_items sg) ([(VStr "Jean", VInt 8)] ++ rest) /\
    (forall x y, In x [(VStr "Jean", VInt 8)] -> In y rest ->
                 num_of (snd y) <= num_of (snd x)) /\
    (rest <> [] -> Z.of_nat (List.length [(VStr "Jean", VInt 8)]) = Z.max 0 1).
Proof.
  apply (ranking_keeps_greatest merged_ab 1
           (mkSeries Int64 [(VStr "Jean", VInt 8)])).
  reflexivity.
Defined.

Lemma wrap64_range (z : Z) : - 2 ^ 63 <= wrap64 z < 2 ^ 63.
Proof.
  unfold wrap64.
  pose proof (Z.mod_pos_bound (z + 2 ^ 63) (2 ^ 64) ltac:(lia)). lia.
Qed.

Lemma sorted_map_fst (f : value -> value) (ks : list value) :
  map fst (map (fun k => (k, f k)) ks) = ks.
Proof. rewrite map_map. simpl. apply map_id. Qed.

(** X13.  The grouped sum of a dataset with integer counts has one entry
    per distinct name that is not missing, in strictly increasing order of
    name; the total of a name is the int64 sum of [Nombre] over the rows
    with that name, and lies in the int64 range. *)
Theorem grouped_sum_entries (df : DataFrame) (kp c : nat) :
  select "Prenom" (columns df) = Unique kp ->
  select "Nombre" (columns df) = Unique c ->
  column_dtype c df = Int64 ->
  exists s,
    groupby_sum "Prenom" "Nombre" df = inr (GSeries (column_dtype kp df) s) /\
    StronglySorted key_lt (map fst (s_items s)) /\
    NoDup (map fst (s_items s)) /\
    (forall k, In k (map fst (s_items s)) <->
               In k (column_cells kp df) /\ k <> VNaN) /\
    (forall k v, In (k, v) (s_items s) ->
                 v = VInt (wrap64 (int_sum (group_cells kp c k (rows df)))) /\
                 - 2 ^ 63 <= num_of v < 2 ^ 63).
Proof.
  intros Hk Hc Hd.
  rewrite (groupby_sum_int64 _ _ _ _ _ Hk Hc Hd).
  eexists. split; [reflexivity |]. simpl s_items.
  rewrite sorted_map_fst.
  split; [apply group_keys_sorted |].
  split; [apply sorted_NoDup, group_keys_sorted |].
  split; [intros k; apply group_keys_In |].
  intros k v Hin. apply in_map_iff in Hin. destruct Hin as [k' [E _]].
  injection E as -> <-. split; [reflexivity |]. simpl. apply wrap64_range.
Qed.

Lemma grouped_sum_entries_witness :
  exists s,
    groupby_sum "Prenom" "Nombre" merged_ab =
      inr (GSeries (column_dtype 1 merged_ab) s) /\
    StronglySorted key_lt (map fst (s_items s)) /\
    NoDup (map fst (s_items s)) /\
    (forall k, In k (map fst (s_items s)) <->
               In k (column_cells 1 merged_ab) /\ k <> VNaN) /\
    (forall k v, In (k, v) (s_items s) ->
                 v = VInt (wrap64 (int_sum (group_cells 1 2 k (rows merged_ab)))) /\
                 - 2 ^ 63 <= num_of v < 2 ^ 63).
Proof.
  apply (grouped_sum_entries merged_ab 1 2); reflexivity.
Defined.

(** ** The rankings by sex *)

Lemma filter_twice {A} (f g : A -> bool) (l : list A) :
  filter f (filter g l) = filter (fun x => g x && f x) l.
Proof.
  induction l as [| x l IH]; simpl; [reflexivity |].
  destruct (g x); simpl; [destruct (f x) |]; now rewrite IH.
Qed.

Lemma int_sum_app (l1 l2 : list value) :
  int_sum (l1 ++ l2) = int_sum l1 + int_sum l2.
Proof.
  induction l1 as [| v l1 IH]; [reflexivity |].
  simpl app. rewrite !int_sum_cons, IH. lia.
Qed.

(** The total of the grouped sum of an [Int64] column, in int64 arithmetic,
    is the total over the rows that have a name. *)
Lemma grouped_named_total (kp c : nat) (rs : list (list value)) :
  wrap64 (int_sum (map snd
            (map (fun k => (k, VInt (wrap64 (int_sum (group_cells kp c k rs)))))
                 (group_keys (map (cell kp) rs))))) =
  wrap64 (int_sum (map (cell c) (filter (fun r => negb (is_nan (cell kp r))) rs))).
Proof.
  rewrite map_map. simpl. rewrite wrapped_groups_total.
  rewrite groups_total_eq by apply sorted_NoDup, group_keys_sorted.
  rewrite grouped_rows_filter. reflexivity.
Qed.

(** X14.  The ranking by sex of lines 139-140 rests on the rows whose
    [Sexe] cell is the letter asked for, and on no other: for a merged
    dataset with integer counts, the grouped sum behind it gives each name
    the int64 sum of its counts over the rows of that sex, and its total is
    the total over the rows of that sex that have a name.  A row whose sex
    is missing is counted for neither sex. *)
Theorem gender_totals (m : DataFrame) (sp kp c : nat) (sexe : string) :
  select "Sexe" (columns m) = Unique sp ->
  select "Prenom" (columns m) = Unique kp ->
  select "Nombre" (columns m) = Unique c ->
  column_dtype c m = Int64 ->
  exists sel s,
    select_rows_eq "Sexe" (VStr sexe) m = inr sel /\
    (forall r, In r (rows sel) <-> In r (rows m) /\ cell sp r = VStr sexe) /\
    groupby_sum "Prenom" "Nombre" sel = inr (GSeries (column_dtype kp m) s) /\
    (forall k v,
        In (k, v) (s_items s) ->
        v = VInt (wrap64 (int_sum (map (cell c)
               (filter (fun r => py_eq (cell sp r) (VStr sexe)
                                 && value_eqb (cell kp r) k) (rows m)))))) /\
    sum_cells Int64 (map snd (s_items s)) =
    sum_cells Int64
      (map (cell c)
           (filter (fun r => py_eq (cell sp r) (VStr sexe)
                             && negb (is_nan (cell kp r))) (rows m))).
Proof.
  intros Hs Hk Hc Hd.
  unfold select_rows_eq. rewrite Hs.
  eexists. eexists. split; [reflexivity |]. simpl rows. split.
  { intros r. rewrite filter_In. split; intros [Hin Hr]; split; auto.
    - destruct (cell sp r) as [z | t |]; simpl in Hr; try discriminate.
      apply String.eqb_eq in Hr. now subst.
    - rewrite Hr. simpl. apply String.eqb_refl. }
  rewrite (groupby_sum_int64 "Prenom" "Nombre"
             (mkDF (columns m) (dtypes m)
                   (filter (fun r => py_eq (cell sp r) (VStr sexe)) (rows m)))
             kp c Hk Hc Hd).
  split; [reflexivity |]. simpl s_items. split.
  - intros k v Hin. apply in_map_iff in Hin. destruct Hin as [k' [E _]].
    injection E as -> <-. unfold group_cells. simpl rows.
    rewrite filter_twice. reflexivity.
  - simpl. unfold column_cells. simpl rows.
    rewrite grouped_named_total, filter_twice. reflexivity.
Qed.

Lemma gender_totals_witness :
  exists sel s,
    select_rows_eq "Sexe" (VStr "F") merged_ab = inr sel /\
    (forall r, In r (rows sel) <-> In r (rows merged_ab) /\ cell 0 r = VStr "F") /\
    groupby_sum "Prenom" "Nombre" sel = inr (GSeries (column_dtype 1 merged_ab) s) /\
    (forall k v,
        In (k, v) (s_items s) ->
        v = VInt (wrap64 (int_sum (map (cell 2)
               (filter (fun r => py_eq (cell 0 r) (VStr "F")
                                 && value_eqb (cell 1 r) k) (rows merged_ab)))))) /\
    sum_cells Int64 (map snd (s_items s)) =
    sum_cells Int64
      (map (cell 2)
           (filter (fun r => py_eq (cell 0 r) (VStr "F")
                             && negb (is_nan (cell 1 r))) (rows merged_ab))).
Proof.
  apply (gender_totals merged_ab 0 1 2 "F"); reflexivity.
Defined.

Lemma wrap64_congr (a a' x : Z) :
  wrap64 a = wrap64 a' -> wrap64 (a + x) = wrap64 (a' + x).
Proof.
  intros H. rewrite <- (wrap64_add_l a), <- (wrap64_add_l a'), H. reflexivity.
Qed.

Lemma int_sum_filter_split (c : nat) (f g : list value -> bool)
      (rs : list (list value)) :
  int_sum (map (cell c) (filter g rs)) =
  int_sum (map (cell c) (filter (fun r => g r && f r) rs))
  + int_sum (map (cell c) (filter (fun r => g r && negb (f r)) rs)).
Proof.
  induction rs as [| r rs IH]; [reflexivity |].
  cbn [filter]. destruct (g r), (f r); cbn [andb negb map];
    rewrite ?int_sum_cons; lia.
Qed.

(** X15.  For a merged dataset with integer counts, the rows that have a
    name split three ways: those counted for the girls, those counted for
    the boys, and those whose [Sexe] cell is neither "F" nor "M" (missing,
    for a dataset of the loader), which no ranking by sex counts.  In int64
    arithmetic the two grouped totals and the counts of the third kind add
    up to the total over the rows that have a name. *)
Theorem gender_split_total (m : DataFrame) (sp kp c : nat) :
  select "Sexe" (columns m) = Unique sp ->
  select "Prenom" (columns m) = Unique kp ->
  select "Nombre" (columns m) = Unique c ->
  column_dtype c m = Int64 ->
  exists filles garcons,
    and_then (select_rows_eq "Sexe" (VStr "F") m) (groupby_sum "Prenom" "Nombre") =
      inr (GSeries (column_dtype kp m) filles) /\
    and_then (select_rows_eq "Sexe" (VStr "M") m) (groupby_sum "Prenom" "Nombre") =
      inr (GSeries (column_dtype kp m) garcons) /\
    wrap64 (int_sum (map snd (s_items filles))
            + int_sum (map snd (s_items garcons))
            + int_sum (map (cell c)
                 (filter (fun r => negb (is_nan (cell kp r))
                                   && negb (py_eq (cell sp r) (VStr "F"))
                                   && negb (py_eq (cell sp r) (VStr "M")))
                         (rows m)))) =
    wrap64 (int_sum (map (cell c)
              (filter (fun r => negb (is_nan (cell kp r))) (rows m)))).
Proof.
  intros Hs Hk Hc Hd.
  unfold select_rows_eq. rewrite Hs. simpl and_then.
  rewrite (groupby_sum_int64 "Prenom" "Nombre"
             (mkDF (columns m) (dtypes m)
                   (filter (fun r => py_eq (cell sp r) (VStr "F")) (rows m)))
             kp c Hk Hc Hd).
  rewrite (groupby_sum_int64 "Prenom" "Nombre"
             (mkDF (columns m) (dtypes m)
                   (filter (fun r => py_eq (cell sp r) (VStr "M")) (rows m)))
             kp c Hk Hc Hd).
  eexists. eexists. split; [reflexivity |]. split; [reflexivity |].
  simpl s_items. unfold column_cells. simpl rows.
  set (named := fun r : list value => negb (is_nan (cell kp r))).
  set (isF := fun r : list value => py_eq (cell sp r) (VStr "F")).
  set (isM := fun r : list value => py_eq (cell sp r) (VStr "M")).
  pose proof (grouped_named_total kp c (filter isF (rows m))) as HF.
  pose proof (grouped_named_total kp c (filter isM (rows m))) as HM.
  fold named in HF, HM. rewrite filter_twice in HF, HM.
  rewrite <- !Z.add_assoc.
  rewrite (wrap64_congr _ _ _ HF).
  rewrite (Z.add_comm (int_sum (map (cell c) (filter (fun x => isF x && named x) (rows m))))).
  rewrite <- !Z.add_assoc.
  rewrite (wrap64_congr _ _ _ HM).
  f_equal.
  rewrite (int_sum_filter_split c isF named (rows m)).
  rewrite (int_sum_filter_split c isM (fun r => named r && negb (isF r)) (rows m)).
  assert (E1 : filter (fun x => isF x && named x) (rows m) =
               filter (fun r => named r && isF r) (rows m)).
  { apply filter_ext. intros r. apply andb_comm. }
  assert (E2 : filter (fun x => isM x && named x) (rows m) =
               filter (fun r => named r && negb (isF r) && isM r) (rows m)).
  { apply filter_ext. intros r. unfold isF, isM.
    destruct (cell sp r) as [z | t |]; simpl.
    - now rewrite andb_false_r.
    - destruct (String.eqb_spec t "F") as [EF | _],
        (String.eqb_spec t "M") as [EM | _];
        try (rewrite EF in EM; discriminate); destruct (named r); reflexivity.
    - now rewrite andb_false_r. }
  rewrite E1, E2. unfold named, isF, isM. lia.
Qed.

Lemma gender_split_total_witness :
  exists filles garcons,
    and_then (select_rows_eq "Sexe" (VStr "F") merged_ab)
             (groupby_sum "Prenom" "Nombre") =
      inr (GSeries (column_dtype 1 merged_ab) filles) /\
    and_then (select_rows_eq "Sexe" (VStr "M") merged_ab)
             (groupby_sum "Prenom" "Nombre") =
      inr (GSeries (column_dtype 1 merged_ab) garcons) /\
    wrap64 (int_sum (map snd (s_items filles))
            + int_sum (map snd (s_items garcons))
            + int_sum (map (cell 2)
                 (filter (fun r => negb (is_nan (cell 1 r))
                                   && negb (py_eq (cell 0 r) (VStr "F"))
                                   && negb (py_eq (cell 0 r) (VStr "M")))
                         (rows merged_ab)))) =
    wrap64 (int_sum (map (cell 2)
              (filter (fun r => negb (is_nan (cell 1 r))) (rows merged_ab)))).
Proof.
  apply (gender_split_total merged_ab 0 1 2); reflexivity.
Defined.

(** ** The printed report *)

Lemma report_lines_nth (lbl : label) (i : nat) (items : list (value * value))
      (j : nat) (l : report_line) :
  nth_error (report_lines lbl i items) j = Some l ->
  line_rank l = (i + j)%nat /\ line_label l = lbl /\
  nth_error items j = Some (line_name l, line_occurrence l).
Proof.
  revert i j. induction items as [| [p o] rest IH]; intros i j; simpl.
  - destruct j; discriminate.
  - destruct j as [| j]; simpl.
    + intros [= <-]. simpl. rewrite Nat.add_0_r. auto.
    + intros H. destruct (IH (S i) j H) as [Hr [Hl Hn]].
      repeat split; auto. lia.
Qed.

Lemma report_lines_length (lbl : label) (i : nat) (items : list (value * value)) :
  List.length (report_lines lbl i items) = List.length items.
Proof.
  revert i. induction items as [| [p o] rest IH]; intros i; simpl; auto.
Qed.

Lemma print_ranking_all (env : Env) (lbl : label) (i : nat)
      (items : list (value * value)) :
  (forall l, In l (report_lines lbl i items) -> print_outcome env l = None) ->
  print_ranking env lbl i items = (Ret tt, map Print (report_lines lbl i items)).
Proof.
  revert i. induction items as [| [p o] rest IH]; intros i Hp; simpl;
    [reflexivity |].
  unfold print. rewrite (Hp (mkLine lbl i p o)) by (simpl; auto).
  simpl. rewrite IH; [reflexivity |].
  intros l Hl. apply Hp. simpl. auto.
Qed.

Lemma print_ranking_fails (env : Env) (lbl : label) (i : nat)
      (pre post : list (value * value)) (kv : value * value) (e : exn) :
  (forall l, In l (report_lines lbl i pre) -> print_outcome env l = None) ->
  print_outcome env (mkLine lbl (i + List.length pre) (fst kv) (snd kv)) = Some e ->
  print_ranking env lbl i (pre ++ kv :: post) =
  (Raise e, map Print (report_lines lbl i pre)).
Proof.
  revert i. induction pre as [| [p o] pre IH]; intros i Hp He; simpl in *.
  - destruct kv as [p o]. simpl in He. rewrite Nat.add_0_r in He.
    unfold print. rewrite He. reflexivity.
  - unfold print. rewrite (Hp (mkLine lbl i p o)) by auto. simpl.
    rewrite (IH (S i)).
    + reflexivity.
    + intros l Hl. apply Hp. auto.
    + rewrite <- He. f_equal. f_equal. lia.
Qed.

(** X16.  When line 104 returns a ranking and the lines can be printed,
    [process_top_names] returns that ranking after logging the header and
    printing one line per entry, in the order of the ranking: the line at
    position [j] (from 0) has rank [j + 1], the label of the year, and the
    name and total of the entry at position [j]. *)
Theorem report_in_rank_order
        (env : Env) (df : DataFrame) (year top_n : Z) (s : Series) :
  top_names_of df top_n = inr s ->
  (forall l, In l (report_lines (YearLabel year) 1 (s_items s)) ->
             print_outcome env l = None) ->
  process_top_names env df year top_n =
    (Ret s, LogInfo (TopHeader top_n year)
              :: map Print (report_lines (YearLabel year) 1 (s_items s))) /\
  List.length (printed_lines (trace (process_top_names env df year top_n))) =
    List.length (s_items s) /\
  (forall j l,
      nth_error (printed_lines (trace (process_top_names env df year top_n))) j
        = Some l ->
      line_rank l = S j /\ line_label l = YearLabel year /\
      nth_error (s_items s) j = Some (line_name l, line_occurrence l)).
Proof.
  intros Htop Hp.
  assert (E : process_top_names env df year top_n =
              (Ret s, LogInfo (TopHeader top_n year)
                        :: map Print (report_lines (YearLabel year) 1 (s_items s)))).
  { unfold process_top_names, top_names_body. rewrite Htop. simpl.
    rewrite (print_ranking_all env _ _ _ Hp). simpl.
    rewrite app_nil_r. reflexivity. }
  split; [exact E |]. rewrite E. unfold trace. simpl.
  assert (Hpl : forall ls, printed_lines (map Print ls) = ls).
  { induction ls as [| l ls IH]; simpl; [reflexivity | now rewrite IH]. }
  rewrite Hpl. split; [apply report_lines_length |].
  intros j l Hj. apply report_lines_nth in Hj. simpl in Hj. exact Hj.
Qed.

Lemma report_in_rank_order_witness :
  process_top_names scenario dataset_a 2003 10 =
    (Ret (mkSeries Int64 [(VStr "Marie", VInt 7); (VStr "Jean", VInt 5)]),
     LogInfo (TopHeader 10 2003)
       :: map Print (report_lines (YearLabel 2003) 1
                       [(VStr "Marie", VInt 7); (VStr "Jean", VInt 5)])) /\
  List.length (printed_lines (trace (process_top_names scenario dataset_a 2003 10))) =
    2%nat /\
  (forall j l,
      nth_error (printed_lines (trace (process_top_names scenario dataset_a 2003 10))) j
        = Some l ->
      line_rank l = S j /\ line_label l = YearLabel 2003 /\
      nth_error [(VStr "Marie", VInt 7); (VStr "Jean", VInt 5)] j
        = Some (line_name l, line_occurrence l)).
Proof.
  apply (report_in_rank_order scenario dataset_a 2003 10
           (mkSeries Int64 [(VStr "Marie", VInt 7); (VStr "Jean", VInt 5)])).
  - reflexivity.
  - intros l _. reflexivity.
Defined.

(** X17.  When printing fails in the middle of a report, the lines before
    the failing one stay printed, the error is logged, no further line is
    attempted, and [process_top_names] returns the empty Series although
    the ranking had been computed. *)
Theorem report_interrupted
        (env : Env) (df : DataFrame) (year top_n : Z) (s : Series)
        (pre post : list (value * value)) (kv : value * value) (e : exn) :
  top_names_of df top_n = inr s ->
  s_items s = pre ++ kv :: post ->
  (forall l, In l (report_lines (YearLabel year) 1 pre) ->
             print_outcome env l = None) ->
  print_outcome env (mkLine (YearLabel year) (S (List.length pre))
                            (fst kv) (snd kv)) = Some e ->
  process_top_names env df year top_n =
  (Ret empty_series,
   LogInfo (TopHeader top_n year)
     :: map Print (report_lines (YearLabel year) 1 pre)
     ++ [LogError (TopNamesError year e)]).
Proof.
  intros Htop Hitems Hp He.
  unfold process_top_names, top_names_body. rewrite Htop. simpl.
  rewrite Hitems.
  rewrite (print_ranking_fails env _ 1 pre post kv e Hp He). reflexivity.
Qed.

Lemma report_interrupted_witness :
  process_top_names scenario_console_closing dataset_a 2003 10 =
  (Ret empty_series,
   LogInfo (TopHeader 10 2003)
     :: map Print (report_lines (YearLabel 2003) 1 [(VStr "Marie", VInt 7)])
     ++ [LogError (TopNamesError 2003 (OSError "broken pipe"))]).
Proof.
  apply (report_interrupted scenario_console_closing dataset_a 2003 10
           (mkSeries Int64 [(VStr "Marie", VInt 7); (VStr "Jean", VInt 5)])
           [(VStr "Marie", VInt 7)] [] (VStr "Jean", VInt 5)
           (OSError "broken pipe")).
  - reflexivity.
  - reflexivity.
  - intros l [<- | []]. reflexivity.
  - reflexivity.
Defined.

(** ** When a ranking can be computed *)

Lemma top_names_of_fails (df : DataFrame) (top_n : Z) :
  (forall kp c, select "Prenom" (columns df) = Unique kp ->
                select "Nombre" (columns df) = Unique c ->
                column_dtype c df = Object) ->
  exists e, top_names_of df top_n = inl e.
Proof.
  intros Hno. unfold top_names_of, groupby_sum.
  destruct (select "Prenom" (columns df)) as [| kp |] eqn:Hk; simpl; eauto.
  destruct (positions "Nombre" (columns df)) as [| c [| c' ps]] eqn:Hps;
    simpl; eauto.
  - assert (Hd : column_dtype c df = Object).
    { apply (Hno kp c eq_refl). now apply select_unique. }
    rewrite Hd. destruct (traverse _ _); simpl; eauto.
  - destruct (traverse _ _); simpl; eauto.
Qed.

(** X18.  The ranking of line 104 is computed exactly when [Prenom] and
    [Nombre] each name one column of the table and the counts are numbers;
    with a label missing or repeated, or with counts read as text, the line
    raises, and [process_top_names] then logs one error, prints nothing and
    returns the empty Series. *)
Theorem ranking_computed_iff (env : Env) (df : DataFrame) (year top_n : Z) :
  ((exists s, top_names_of df top_n = inr s) <->
   exists kp c, select "Prenom" (columns df) = Unique kp /\
                select "Nombre" (columns df) = Unique c /\
                column_dtype c df <> Object) /\
  ((forall s, top_names_of df top_n <> inr s) ->
   exists e, process_top_names env df year top_n =
             (Ret empty_series, [LogError (TopNamesError year e)])).
Proof.
  split; [split |].
  - intros [s Hs].
    destruct (select "Prenom" (columns df)) as [| kp |] eqn:Hk.
    1, 3: destruct (top_names_of_fails df top_n) as [e He];
          [intros kp c H; rewrite Hk in H; discriminate | congruence].
    destruct (select "Nombre" (columns df)) as [| c |] eqn:Hc.
    1, 3: destruct (top_names_of_fails df top_n) as [e He];
          [intros kp' c H H'; rewrite Hc in H'; discriminate | congruence].
    exists kp, c. repeat split; auto. intros Hd.
    destruct (top_names_of_fails df top_n) as [e He]; [| congruence].
    intros kp' c' _ Hc'. rewrite Hc in Hc'. injection Hc' as <-. exact Hd.
  - intros [kp [c [Hk [Hc Hd]]]]. unfold top_names_of.
    rewrite (groupby_sum_numeric _ _ _ _ _ Hk Hc Hd). simpl.
    destruct (column_dtype c df); [eauto | eauto | congruence].
  - intros Hno. unfold process_top_names, top_names_body.
    destruct (top_names_of df top_n) as [e | s] eqn:E.
    + exists e. reflexivity.
    + exfalso. exact (Hno s eq_refl).
Qed.

Lemma ranking_computed_iff_witness :
  exists e, process_top_names scenario dataset_text_counts 2003 10 =
            (Ret empty_series, [LogError (TopNamesError 2003 e)]).
Proof.
  apply (proj2 (ranking_computed_iff scenario dataset_text_counts 2003 10)).
  intros s H. discriminate H.
Defined.

(** X19.  The report by sex is all or nothing: both rankings are computed
    before anything is printed, so when either fails, no line is printed for
    either sex and the block logs that one error and goes on. *)
Theorem gender_report_all_or_nothing (env : Env) (m : DataFrame) (e : exn) :
  top_by_sex "F" m = inl e \/
  ((exists s, top_by_sex "F" m = inr s) /\ top_by_sex "M" m = inl e) ->
  report_by_gender env m = (Ret tt, [LogError (GenderError e)]).
Proof.
  unfold report_by_gender.
  intros [HF | [[s HF] HM]]; rewrite HF; simpl; [reflexivity |].
  rewrite HM. reflexivity.
Qed.

Lemma gender_report_all_or_nothing_witness :
  report_by_gender scenario dataset_text_counts =
  (Ret tt, [LogError (GenderError
                        (TypeError "Cannot use method 'nlargest' with dtype object"))]).
Proof.
  apply (gender_report_all_or_nothing scenario dataset_text_counts).
  left. reflexivity.
Defined.

(** ** The log of a successful load *)

Lemma read_csv_strategies_cases (src : Source) (t : DataFrame) :
  parses_to src t ->
  read_csv_strategies src = (Ret t, []) \/
  exists e, parsed_c src = inl e /\
            read_csv_strategies src = (Ret t, [LogError (FirstParseFailed e)]).
Proof.
  unfold parses_to, read_csv_strategies.
  intros [H | [e [H1 H2]]].
  - left. rewrite H. reflexivity.
  - right. exists e. rewrite H1, H2. auto.
Qed.

(** X20.  A load that returns has logged, in this order: the first line of
    the file; the failure of the strict parser, if it failed; the file name;
    the number of rows, which is the number of rows of the dataset returned;
    the header as it was parsed, before renaming; and the success.  It has
    logged no other error. *)
Theorem load_success_trace (env : Env) (filename : string) (d : DataFrame) :
  fst (load_csv_file env filename) = Ret d ->
  exists line t pre,
    first_line (file env filename) = inr line /\
    parses_to (file env filename) t /\
    (pre = [] \/
     exists e, parsed_c (file env filename) = inl e /\
               pre = [LogError (FirstParseFailed e)]) /\
    trace (load_csv_file env filename) =
    LogInfo (RawFirstLine line) :: pre
      ++ [LogInfo (FileIs filename); LogInfo (TotalRows (nrows d));
          LogInfo (ColumnsFound (columns t)); LogInfo (LoadedOk filename)].
Proof.
  intros H.
  assert (Hb : fst (load_body env filename) = Ret d).
  { unfold load_csv_file in H. apply try_except_ret_inv in H.
    destruct H as [H | [e [_ H]]]; [exact H |].
    rewrite load_handler_exit in H. discriminate. }
  destruct (load_body_ret_inv env filename d Hb) as [Hp [line Hl]].
  apply load_csv_file_shape in H.
  destruct H as [t [i [Ht [Hm [_ [Hs ->]]]]]].
  assert (Hn : nrows (map_column i sex_decode (rename required_columns t)) = nrows t).
  { unfold nrows. simpl. apply length_map. }
  rewrite Hn.
  assert (Hrun : forall tr,
    read_csv_strategies (file env filename) = (Ret t, tr) ->
    trace (load_csv_file env filename) =
    LogInfo (RawFirstLine line) :: tr
      ++ [LogInfo (FileIs filename); LogInfo (TotalRows (nrows t));
          LogInfo (ColumnsFound (columns t)); LogInfo (LoadedOk filename)]).
  { intros tr Hr.
    rewrite (load_csv_file_on_table env filename line t tr Hp Hl Hr).
    rewrite (validate_and_decode_ok filename t i Hm Hs). reflexivity. }
  exists line, t.
  destruct (read_csv_strategies_cases _ _ Ht) as [Hr | [e [Hc Hr]]].
  - exists []. repeat split; auto.
  - exists [LogError (FirstParseFailed e)]. repeat split; eauto.
Qed.

Lemma load_success_trace_witness :
  exists line t pre,
    first_line (file scenario "Prenoms2003.csv") = inr line /\
    parses_to (file scenario "Prenoms2003.csv") t /\
    (pre = [] \/
     exists e, parsed_c (file scenario "Prenoms2003.csv") = inl e /\
               pre = [LogError (FirstParseFailed e)]) /\
    trace (load_csv_file scenario "Prenoms2003.csv") =
    LogInfo (RawFirstLine line) :: pre
      ++ [LogInfo (FileIs "Prenoms2003.csv"); LogInfo (TotalRows (nrows dataset_a));
          LogInfo (ColumnsFound (columns t)); LogInfo (LoadedOk "Prenoms2003.csv")].
Proof.
  apply (load_success_trace scenario "Prenoms2003.csv" dataset_a). reflexivity.
Defined.
